(** * BN220 NMEA decoder: a shallow embedding of [BN220.c] and its properties

    The C code of [src/BN220.c] is transcribed function by function.
    - A [char*] is the list of bytes found at the pointer; the C string it
      designates is the prefix before the first NUL ([cstr]).
    - [long] and [int] are 32 bits wide, [float] is IEEE binary32 and [double]
      IEEE binary64 (the STM32H5 target named by [BN220.h]); floating-point
      values and operations are those of [SpecFloat].
    - Reads outside an allocated block and stores outside the global array
      [data] are undefined behaviour in C; the embedding reports them as a
      [Fault].  Allocation itself ([malloc], [strdup]) is assumed to succeed,
      but in the definitions named [_alloc], where each allocation may
      fail. *)

From Stdlib Require Import ZArith Ascii String Lia.
From Stdlib Require Import Floats.SpecFloat.
From stdpp Require Import base list.

Local Open Scope Z_scope.

(** ** Bytes and C strings *)

Module CStr.

Definition NUL : ascii := "000"%char.
Definition CR : ascii := "013"%char.
Definition LF : ascii := "010"%char.

(** A literal as the bytes of a C string (terminator not included). *)
Definition bytes (s : string) : list ascii := list_ascii_of_string s.

(** [(unsigned char)c] *)
Definition uchar (c : ascii) : Z := Z.of_N (N_of_ascii c).

Definition is_nul (c : ascii) : bool := Ascii.eqb c NUL.

#[global] Instance ascii_eq_dec : EqDecision ascii := Ascii.ascii_dec.

(** The C string held at a pointer: everything before the first NUL. *)
Fixpoint cstr (m : list ascii) : list ascii :=
  match m with
  | [] => []
  | c :: m' => if is_nul c then [] else c :: cstr m'
  end.

Definition strlen (m : list ascii) : nat := length (cstr m).

(** [p[i]] for a C string [p]: the terminator is read at its end. *)
Definition char_at (s : list ascii) (i : nat) : ascii :=
  default NUL (s !! i).

(** [strchr(s, c)] for [c <> 0], as the offset of the first occurrence. *)
Fixpoint strchr (s : list ascii) (c : ascii) : option nat :=
  match s with
  | [] => None
  | x :: s' =>
      if is_nul x then None
      else if Ascii.eqb x c then Some 0%nat
      else S <$> strchr s' c
  end.

(** [strncmp(s, needle, strlen(needle)) == 0] *)
Fixpoint starts_with (s needle : list ascii) : bool :=
  match needle, s with
  | [], _ => true
  | _ :: _, [] => false
  | n :: needle', x :: s' => Ascii.eqb x n && starts_with s' needle'
  end.

(** [strstr(s, needle) != NULL] *)
Fixpoint strstr (s needle : list ascii) : bool :=
  starts_with s needle
  || match s with
     | [] => false
     | _ :: s' => strstr s' needle
     end.

(** Membership of a byte in a delimiter set; NUL never is a delimiter. *)
Definition is_delim (delim : list ascii) (c : ascii) : bool :=
  existsb (Ascii.eqb c) delim.

(** [strspn(s, delim)] *)
Fixpoint strspn (s delim : list ascii) : nat :=
  match s with
  | [] => 0%nat
  | c :: s' =>
      if is_nul c then 0%nat
      else if is_delim delim c then S (strspn s' delim) else 0%nat
  end.

(** [strcspn(s, delim)] *)
Fixpoint strcspn (s delim : list ascii) : nat :=
  match s with
  | [] => 0%nat
  | c :: s' =>
      if is_nul c then 0%nat
      else if is_delim delim c then 0%nat else S (strcspn s' delim)
  end.

(** *** [strtol] *)

Definition isspace (c : ascii) : bool :=
  let n := uchar c in (n =? 32) || ((9 <=? n) && (n <=? 13)).

(** Value of a character as a digit in bases up to 36. *)
Definition digit_val (c : ascii) : option Z :=
  let n := uchar c in
  if (48 <=? n) && (n <=? 57) then Some (n - 48)
  else if (97 <=? n) && (n <=? 122) then Some (n - 97 + 10)
  else if (65 <=? n) && (n <=? 90) then Some (n - 65 + 10)
  else None.

Definition digit_in (base : Z) (c : ascii) : option Z :=
  match digit_val c with
  | Some d => if d <? base then Some d else None
  | None => None
  end.

Fixpoint skip_space (s : list ascii) : list ascii :=
  match s with
  | c :: s' => if isspace c then skip_space s' else s
  | [] => []
  end.

(** An optional sign: [true] for a minus. *)
Definition take_sign (s : list ascii) : bool * list ascii :=
  match s with
  | "-"%char :: s' => (true, s')
  | "+"%char :: s' => (false, s')
  | _ => (false, s)
  end.

(** The digits of a number in [base], most significant first. *)
Fixpoint accum_digits (base : Z) (acc : Z) (s : list ascii) : Z :=
  match s with
  | [] => acc
  | c :: s' =>
      match digit_in base c with
      | Some d => accum_digits base (acc * base + d) s'
      | None => acc
      end
  end.

(** The optional [0x] of base 16, taken only before a hexadecimal digit. *)
Definition skip_0x (base : Z) (s : list ascii) : list ascii :=
  match s with
  | "0"%char :: x :: h :: s' =>
      if (base =? 16) && (Ascii.eqb x "x"%char || Ascii.eqb x "X"%char)
         && bool_decide (is_Some (digit_in 16 h))
      then h :: s' else s
  | _ => s
  end.

Definition LONG_MAX : Z := 2 ^ 31 - 1.
Definition LONG_MIN : Z := - 2 ^ 31.

Definition clamp_long (n : Z) : Z := Z.max LONG_MIN (Z.min LONG_MAX n).

(** [strtol(s, NULL, base)]: zero when no digit is found, saturating. *)
Definition strtol (s : list ascii) (base : Z) : Z :=
  let '(neg, s1) := take_sign (skip_space (cstr s)) in
  let n := accum_digits base 0 (skip_0x base s1) in
  clamp_long (if neg then - n else n).

End CStr.
Import CStr.

(** ** Floating point: binary32 and binary64 *)

Module FP.

(** A [float] or [double] value; which of the two is told by the operations
    applied to it. *)
Definition flt : Type := spec_float.

Definition prec32 : Z := 24.
Definition emax32 : Z := 128.
Definition prec64 : Z := 53.
Definition emax64 : Z := 1024.

Definition zero : flt := S754_zero false.

(** Conversion of an [int]. *)
Definition f32_of_int (n : Z) : flt := binary_normalize prec32 emax32 n 0 false.
Definition f64_of_int (n : Z) : flt := binary_normalize prec64 emax64 n 0 false.

(** [(double)x] for a [float] [x]: exact, the mantissa is realigned. *)
Definition f64_of_f32 (x : flt) : flt :=
  match x with
  | S754_finite s m e => binary_round prec64 emax64 s m e
  | _ => x
  end.

Definition f32_add : flt -> flt -> flt := SFadd prec32 emax32.
Definition f32_div : flt -> flt -> flt := SFdiv prec32 emax32.
Definition f64_add : flt -> flt -> flt := SFadd prec64 emax64.
Definition f64_div : flt -> flt -> flt := SFdiv prec64 emax64.

(** Comparisons; each is false as soon as an operand is a NaN. *)
Definition f_eqb : flt -> flt -> bool := SFeqb.
Definition f_leb : flt -> flt -> bool := SFleb.
Definition f_geb (x y : flt) : bool := SFleb y x.

(** [x != 0], the test of [x ? a : b] and [x ?: b]; a NaN passes it. *)
Definition f_nonzero (x : flt) : bool := negb (f_eqb x zero).

(** *** [strtof], correctly rounded to nearest even *)

Definition lower (c : ascii) : ascii :=
  let n := uchar c in
  if (65 <=? n) && (n <=? 90) then ascii_of_N (Z.to_N (n + 32)) else c.

(** Digits of [base] read into [acc]; returns the value, the number of
    digits read and the rest of the input. *)
Fixpoint span_digits (base : Z) (s : list ascii) (acc : Z) (cnt : Z)
  : Z * Z * list ascii :=
  match s with
  | [] => (acc, cnt, [])
  | c :: s' =>
      match digit_in base c with
      | Some d => span_digits base s' (acc * base + d) (cnt + 1)
      | None => (acc, cnt, s)
      end
  end.

(** Digits with an optional radix point: the digits as one integer, the
    number of digits after the point and the rest; [None] without a digit. *)
Definition parse_mantissa (base : Z) (s : list ascii)
  : option (Z * Z * list ascii) :=
  let '(m1, n1, r1) := span_digits base s 0 0 in
  let '(m2, n2, r2) :=
    match r1 with
    | "."%char :: r => span_digits base r m1 0
    | _ => (m1, 0, r1)
    end in
  if n1 + n2 =? 0 then None else Some (m2, n2, r2).

(** An exponent part introduced by [marker]; zero when there is none. *)
Definition parse_exp (marker : ascii) (s : list ascii) : Z :=
  match s with
  | c :: r =>
      if Ascii.eqb (lower c) marker then
        let '(neg, r1) := take_sign r in
        match r1 with
        | d :: _ =>
            if bool_decide (is_Some (digit_in 10 d))
            then let n := accum_digits 10 0 r1 in if neg then - n else n
            else 0
        | [] => 0
        end
      else 0
  | [] => 0
  end.

Section Rounding.
Variables prec emax : Z.

(** The float nearest to [n / d], for [0 < n] and [0 < d]. *)
Definition round_ratio (neg : bool) (n d : Z) : flt :=
  let '(q, e, l) := SFdiv_core_binary prec emax n 0 d 0 in
  binary_round_aux prec emax neg q e l.

(** The float nearest to [m * 10 ^ e]. *)
Definition round_dec (neg : bool) (m e : Z) : flt :=
  if m =? 0 then S754_zero neg
  else if 0 <=? e then round_ratio neg (m * 10 ^ e) 1
  else round_ratio neg m (10 ^ (- e)).

(** The float nearest to [m * 2 ^ e]. *)
Definition round_bin (neg : bool) (m e : Z) : flt :=
  match m with
  | Zpos p => binary_round prec emax neg p e
  | _ => S754_zero neg
  end.

Definition strto (s : list ascii) : flt :=
  let '(neg, s1) := take_sign (skip_space (cstr s)) in
  let decimal :=
    match parse_mantissa 10 s1 with
    | Some (m, k, r) => round_dec neg m (parse_exp "e" r - k)
    | None => zero
    end in
  if starts_with (map lower s1) (bytes "inf") then S754_infinity neg
  else if starts_with (map lower s1) (bytes "nan") then S754_nan
  else
    match s1 with
    | "0"%char :: x :: r =>
        if Ascii.eqb (lower x) "x" then
          match parse_mantissa 16 r with
          | Some (m, k, r') => round_bin neg m (parse_exp "p" r' - 4 * k)
          | None => decimal
          end
        else decimal
    | _ => decimal
    end.
End Rounding.

(** [strtof(s, NULL)] *)
Definition strtof : list ascii -> flt := strto prec32 emax32.

End FP.
Import FP.

(** ** Faults: undefined behaviour made explicit *)

Inductive fault : Type :=
  | DataIndexOutOfBounds (i : nat)   (* store to [data[i]] with [15 <= i] *)
  | ReadPastAllocation               (* [memcpy] reads past a token's block *)
  | NullDereference.                 (* use of a [NULL] array slot *)

Inductive res (A : Type) : Type :=
  | Ok (a : A)
  | Fault (f : fault).
Arguments Ok {A} a.
Arguments Fault {A} f.

#[global] Instance res_ret : MRet res := fun A a => Ok a.

#[global] Instance res_bind : MBind res := fun A B k m =>
  match m with
  | Ok a => k a
  | Fault f => Fault f
  end.

(** ** [getChecksum] *)

(** The body of the [for] loop: the byte at [p] is xor-ed into [calc_cs]. *)
Definition xor_step (calc_cs : Z) (p : ascii) : Z := Z.lxor calc_cs (uchar p).

Definition getChecksum (gps_sentence : list ascii) : Z :=
  let s := cstr gps_sentence in
  if (length s <? 5)%nat then 0
  else
    match strchr s "*"%char with
    | None => 0
    | Some star =>
        if (strlen (drop star s) <? 3)%nat then 0
        else
          let calc_cs := fold_left xor_step (take star s) 0 in
          let cs_str := [char_at s (star + 1); char_at s (star + 2)] in
          let nmea_cs := strtol cs_str 16 in
          if calc_cs =? nmea_cs then 1 else 0
    end.


(** ** The fix record *)

(** [BN220_GPS] of [BN220.h].  [lastMeasure] is the ten bytes of the array
    [char lastMeasure[10]]; the field [fix] is spelled [fix_]. *)
Record BN220_GPS : Type := mkGPS {
  lat : flt;                  (* double *)
  NS : ascii;
  lon : flt;                  (* double *)
  EW : ascii;
  altitude : flt;             (* float *)
  hdop : flt;                 (* float *)
  satelliteCount : Z;
  fix_ : Z;
  lastMeasure : list ascii
}.

Definition set_lat (v : flt) (g : BN220_GPS) : BN220_GPS :=
  mkGPS v (NS g) (lon g) (EW g) (altitude g) (hdop g) (satelliteCount g) (fix_ g) (lastMeasure g).
Definition set_NS (v : ascii) (g : BN220_GPS) : BN220_GPS :=
  mkGPS (lat g) v (lon g) (EW g) (altitude g) (hdop g) (satelliteCount g) (fix_ g) (lastMeasure g).
Definition set_lon (v : flt) (g : BN220_GPS) : BN220_GPS :=
  mkGPS (lat g) (NS g) v (EW g) (altitude g) (hdop g) (satelliteCount g) (fix_ g) (lastMeasure g).
Definition set_EW (v : ascii) (g : BN220_GPS) : BN220_GPS :=
  mkGPS (lat g) (NS g) (lon g) v (altitude g) (hdop g) (satelliteCount g) (fix_ g) (lastMeasure g).
Definition set_altitude (v : flt) (g : BN220_GPS) : BN220_GPS :=
  mkGPS (lat g) (NS g) (lon g) (EW g) v (hdop g) (satelliteCount g) (fix_ g) (lastMeasure g).
Definition set_hdop (v : flt) (g : BN220_GPS) : BN220_GPS :=
  mkGPS (lat g) (NS g) (lon g) (EW g) (altitude g) v (satelliteCount g) (fix_ g) (lastMeasure g).
Definition set_satelliteCount (v : Z) (g : BN220_GPS) : BN220_GPS :=
  mkGPS (lat g) (NS g) (lon g) (EW g) (altitude g) (hdop g) v (fix_ g) (lastMeasure g).
Definition set_fix (v : Z) (g : BN220_GPS) : BN220_GPS :=
  mkGPS (lat g) (NS g) (lon g) (EW g) (altitude g) (hdop g) (satelliteCount g) v (lastMeasure g).
Definition set_lastMeasure (v : list ascii) (g : BN220_GPS) : BN220_GPS :=
  mkGPS (lat g) (NS g) (lon g) (EW g) (altitude g) (hdop g) (satelliteCount g) (fix_ g) v.

(** [memcpy(lastMeasure, t, 9); lastMeasure[9] = 0]: all ten bytes are
    written, [t] holding at least nine characters. *)
Definition write_time (t : list ascii) (g : BN220_GPS) : BN220_GPS :=
  set_lastMeasure (take 9 t ++ [NUL]) g.

(** [lastMeasure[0] = 0]: the other nine bytes stay. *)
Definition clear_time (g : BN220_GPS) : BN220_GPS :=
  set_lastMeasure (<[0%nat := NUL]> (lastMeasure g)) g.

(** ** The field tokenizer shared by the four decoders *)

(** [strsep(&p, delim)]: the token returned and the new value of [p]. *)
Definition strsep (p : option (list ascii)) (delim : list ascii)
  : option (list ascii) * option (list ascii) :=
  match p with
  | None => (None, None)
  | Some s =>
      let n := strcspn s delim in
      if (n <? strlen s)%nat
      then (Some (take n s), Some (drop (S n) s))
      else (Some (cstr s), None)
  end.

(** The loop [while ((token = strsep(&p, ",")) != NULL && cnt < 25)], which
    stores a copy of [token] in [val[cnt]] and increments [cnt].  [room] is
    [25 - cnt], so that [cnt < 25] reads [room <> 0]. *)
Fixpoint split_fields (room : nat) (p : option (list ascii))
    (val : list (option (list ascii))) (cnt : nat)
  : list (option (list ascii)) * nat :=
  match strsep p (bytes ",") with
  | (None, _) => (val, cnt)
  | (Some token, p') =>
      match room with
      | O => (val, cnt)
      | S room' => split_fields room' p' (<[cnt := Some token]> val) (S cnt)
      end
  end.

(** [char *val[25]] cleared, [buf = strdup(nmea_sentence)], then the loop. *)
Definition tokenize (nmea_sentence : list ascii)
  : list (option (list ascii)) * nat :=
  split_fields 25 (Some (cstr nmea_sentence)) (replicate 25 None) 0.

(** [val[i]], possibly [NULL]. *)
Definition slot (val : list (option (list ascii))) (i : nat)
  : option (list ascii) :=
  mjoin (val !! i).

(** [val[i]] where the code dereferences it. *)
Definition field (val : list (option (list ascii))) (i : nat)
  : res (list ascii) :=
  match slot val i with
  | Some t => Ok t
  | None => Fault NullDereference
  end.

(** [memcpy(dst, t + off, n)] out of the block of a token [t], which holds
    [strlen(t) + 1] bytes; [dst] is the destination array before the copy. *)
Definition memcpy (dst t : list ascii) (off n : nat) : res (list ascii) :=
  if (off + n <=? length t + 1)%nat
  then Ok (take n (drop off (t ++ [NUL])) ++ drop n dst)
  else Fault ReadPastAllocation.

Definition is_NS (c : ascii) : bool := Ascii.eqb c "N" || Ascii.eqb c "S".
Definition is_EW (c : ascii) : bool := Ascii.eqb c "E" || Ascii.eqb c "W".

(** ** [nmea_GLL] *)

Definition nmea_GLL (gps_data : BN220_GPS) (nmea_sentence : list ascii)
  : res (Z * BN220_GPS) :=
  let '(val, cnt) := tokenize nmea_sentence in
  if (cnt <? 5)%nat then Ok (0, gps_data)
  else
    v2 ← field val 2;
    let lat_ind := char_at v2 0 in
    if is_NS lat_ind then
      v1 ← field val 1;
      lat_d ← memcpy (replicate 3 NUL) v1 0 2;
      lat_m ← memcpy (replicate 8 NUL) v1 2 6;
      let lat_d_t := strtol lat_d 10 in
      let lat_m_t := strtof lat_m in
      let lat_deg :=
        f64_add (f64_of_int lat_d_t)
                (f64_div (f64_of_f32 lat_m_t) (f64_of_int 60)) in
      v4 ← field val 4;
      let lon_ind := char_at v4 0 in
      v3 ← field val 3;
      lon_d ← memcpy (replicate 4 NUL) v3 0 3;
      lon_m ← memcpy (replicate 8 NUL) v3 3 7;
      let lon_d_t := strtol lon_d 10 in
      let lon_m_t := strtof lon_m in
      let lon_deg :=
        f64_add (f64_of_int lon_d_t)
                (f64_div (f64_of_f32 lon_m_t) (f64_of_int 60)) in
      if (lat_d_t =? 0) || f_eqb lat_m_t zero
         || (lon_d_t =? 0) || f_eqb lon_m_t zero
      then Ok (0, gps_data)
      else
        let g := set_EW lon_ind (set_NS lat_ind
                   (set_lon lon_deg (set_lat lat_deg gps_data))) in
        let g' :=
          match slot val 5 with
          | Some v5 =>
              if (9 <=? strlen v5)%nat then write_time v5 g else clear_time g
          | None => clear_time g
          end in
        Ok (1, g')
    else Ok (0, gps_data).

(** ** [nmea_GSA] *)

(** The loop [for (i = 3; i < 15; i++)], from index [i] for [n] rounds. *)
Fixpoint count_used (val : list (option (list ascii))) (i n : nat)
    (satelliteCount : Z) : res Z :=
  match n with
  | O => Ok satelliteCount
  | S n' =>
      v ← field val i;
      count_used val (S i) n'
        (if is_nul (char_at v 0) then satelliteCount else satelliteCount + 1)
  end.

Definition nmea_GSA (gps_data : BN220_GPS) (nmea_sentence : list ascii)
  : res (Z * BN220_GPS) :=
  let '(val, cnt) := tokenize nmea_sentence in
  if (cnt <? 15)%nat then Ok (0, gps_data)
  else
    v2 ← field val 2;
    let fix_code := strtol v2 10 in
    let g := set_fix (if 1 <? fix_code then 1 else 0) gps_data in
    satelliteCount ← count_used val 3 12 0;
    Ok (1, set_satelliteCount satelliteCount g).

(** ** [nmea_GGA] *)

Definition nmea_GGA (gps_data : BN220_GPS) (nmea_sentence : list ascii)
  : res (Z * BN220_GPS) :=
  let '(val, cnt) := tokenize nmea_sentence in
  if (cnt <? 10)%nat then Ok (0, gps_data)
  else
    v1 ← field val 1;
    let g1 :=
      if (9 <=? strlen v1)%nat then write_time v1 gps_data
      else clear_time gps_data in
    v3 ← field val 3;
    let lat_ind := char_at v3 0 in
    if negb (is_NS lat_ind) then Ok (0, g1)
    else
      v2 ← field val 2;
      lat_d ← memcpy (replicate 3 NUL) v2 0 2;
      lat_m ← memcpy (replicate 8 NUL) v2 2 6;
      let lat_deg_i := strtol lat_d 10 in
      let lat_deg_f := f32_div (strtof lat_m) (f32_of_int 60) in
      let lat := f64_of_f32 (f32_add (f32_of_int lat_deg_i) lat_deg_f) in
      if f_leb lat (f64_of_int 0) || f_geb lat (f64_of_int 90) then Ok (0, g1)
      else
        v5 ← field val 5;
        let lon_ind := char_at v5 0 in
        if negb (is_EW lon_ind) then Ok (0, g1)
        else
          v4 ← field val 4;
          lon_d ← memcpy (replicate 4 NUL) v4 0 3;
          lon_m ← memcpy (replicate 8 NUL) v4 3 7;
          let lon_deg_i := strtol lon_d 10 in
          let lon_deg_f := f32_div (strtof lon_m) (f32_of_int 60) in
          let lon := f64_of_f32 (f32_add (f32_of_int lon_deg_i) lon_deg_f) in
          if f_leb lon (f64_of_int 0) || f_geb lon (f64_of_int 180)
          then Ok (0, g1)
          else
            v6 ← field val 6;
            v7 ← field val 7;
            v8 ← field val 8;
            v9 ← field val 9;
            let g2 := set_lat (if Ascii.eqb lat_ind "S" then SFopp lat else lat) g1 in
            let g3 := set_lon (if Ascii.eqb lon_ind "W" then SFopp lon else lon) g2 in
            let g4 := set_fix (if 0 <? strtol v6 10 then 1 else 0) g3 in
            let g5 := set_satelliteCount (strtol v7 10) g4 in
            let g6 := set_hdop (if f_nonzero (strtof v8) then strtof v8 else hdop g5) g5 in
            let g7 := set_altitude
                        (if f_nonzero (strtof v9) then strtof v9 else altitude g6) g6 in
            Ok (1, g7).

(** ** [nmea_GSV] *)

Definition nmea_GSV (gps_data : BN220_GPS) (nmea_sentence : list ascii)
  : res (Z * BN220_GPS) :=
  let '(val, cnt) := tokenize nmea_sentence in
  if (cnt <? 2)%nat then Ok (0, gps_data) else Ok (1, gps_data).

(** ** [strtok] and [gpsParse] *)

(** [strtok(s, delim)] on the memory [mem] of the buffer, pointers being
    offsets into it; [olds] is the position saved by the previous call.
    The byte read at offset [length mem] is the terminator of the buffer.
    Returns the token (or [NULL]), the memory and the saved position. *)
Definition strtok (s : option nat) (delim : list ascii)
    (mem : list ascii) (olds : nat) : option nat * list ascii * nat :=
  let s0 := default olds s in
  let s1 := (s0 + strspn (drop s0 mem) delim)%nat in
  if is_nul (char_at mem s1) then (None, mem, s1)
  else
    let e := (s1 + strcspn (drop s1 mem) delim)%nat in
    if is_nul (char_at mem e) then (Some s1, mem, e)
    else (Some s1, <[e := NUL]> mem, S e).

(** The first loop of [gpsParse]: [data[cnt++]] receives a copy of the
    sentence at [sentence], then [strtok(NULL, "$")] is called.  [room] is
    [15 - cnt]: the store to [data[cnt]] lies inside [char* data[15]] exactly
    when [room <> 0]; the code does not test it. *)
Fixpoint store_loop (room : nat) (sentence : option nat)
    (mem : list ascii) (olds : nat)
    (data : list (option (list ascii))) (cnt : nat)
  : res (list ascii * list (option (list ascii)) * nat) :=
  match sentence with
  | None => Ok (mem, data, cnt)
  | Some p =>
      match room with
      | O => Fault (DataIndexOutOfBounds cnt)
      | S room' =>
          let data' := <[cnt := Some (cstr (drop p mem))]> data in
          let '(sentence', mem', olds') := strtok None (bytes "$") mem olds in
          store_loop room' sentence' mem' olds' data' (S cnt)
      end
  end.

(** A decoder called as a statement: the value it returns is dropped. *)
Definition call (m : res (Z * BN220_GPS)) : res BN220_GPS :=
  r ← m; Ok (snd r).

(** The body of the second loop, for the sentence [d = data[i]]. *)
Definition dispatch (gps_data : BN220_GPS) (d : list ascii) : res BN220_GPS :=
  if strstr d [CR; LF] && negb (getChecksum d =? 0) then
    if strstr d (bytes "GLL") then call (nmea_GLL gps_data d)
    else if strstr d (bytes "GSA") then call (nmea_GSA gps_data d)
    else if strstr d (bytes "GGA") then call (nmea_GGA gps_data d)
    else if strstr d (bytes "GSV") then call (nmea_GSV gps_data d)
    else Ok gps_data
  else Ok gps_data.

(** The loop [for (i = ...; i < cnt; i++)], with [n = cnt - i] rounds left. *)
Fixpoint dispatch_loop (data : list (option (list ascii))) (i n : nat)
    (gps_data : BN220_GPS) : res BN220_GPS :=
  match n with
  | O => Ok gps_data
  | S n' =>
      d ← field data i;
      g ← dispatch gps_data d;
      dispatch_loop data (S i) n' g
  end.

(** [gpsParse(gps_data, buffer)]: the record and the buffer afterwards. *)
Definition gpsParse (gps_data : BN220_GPS) (buffer : list ascii)
  : res (BN220_GPS * list ascii) :=
  let data := replicate 15 None in
  let '(sentence, mem, olds) := strtok (Some 0%nat) (bytes "$") buffer 0 in
  '(mem', data', cnt) ← store_loop 15 sentence mem olds data 0;
  g ← dispatch_loop data' 0 cnt gps_data;
  Ok (g, mem').

(** * Specification-level notions *)

(** The XOR of every byte of [body]. *)
Definition xor_bytes (body : list ascii) : Z :=
  foldr (fun c acc => Z.lxor (uchar c) acc) 0 body.

(** The value of one hexadecimal digit. *)
Definition hexdigit (c : ascii) : option Z := digit_in 16 c.

(** The pieces of [s] between occurrences of [d], empty pieces included. *)
Fixpoint split_on (d : ascii) (s : list ascii) : list (list ascii) :=
  match s with
  | [] => [[]]
  | c :: s' =>
      if Ascii.eqb c d then [] :: split_on d s'
      else match split_on d s' with
           | t :: ts => (c :: t) :: ts
           | [] => [[c]]
           end
  end.

(** The comma-separated fields of a sentence, at most 25 of them. *)
Definition fields (sentence : list ascii) : list (list ascii) :=
  take 25 (split_on "," (cstr sentence)).

Definition nonempty (t : list ascii) : bool :=
  match t with [] => false | _ => true end.

(** The candidate sentences of a buffer: its non-empty [$]-separated pieces. *)
Definition candidates (buffer : list ascii) : list (list ascii) :=
  filter (fun t => nonempty t = true) (split_on "$" (cstr buffer)).

(** The two evaluations of [whole + minutes / 60]: in [double] arithmetic
    (as written in [nmea_GLL]) and in [float] arithmetic, widened afterwards
    (as written in [nmea_GGA]). *)
Definition deg_double (whole : Z) (minutes : flt) : flt :=
  f64_add (f64_of_int whole) (f64_div (f64_of_f32 minutes) (f64_of_int 60)).

Definition deg_single (whole : Z) (minutes : flt) : flt :=
  f64_of_f32 (f32_add (f32_of_int whole) (f32_div minutes (f32_of_int 60))).

(** What a decoder stores in [lastMeasure] for a time field [t]. *)
Definition time_of (t : option (list ascii)) (old : list ascii) : list ascii :=
  match t with
  | Some t => if (9 <=? length t)%nat then take 9 t ++ [NUL]
              else <[0%nat := NUL]> old
  | None => <[0%nat := NUL]> old
  end.

(** An array of [cap] pointers whose first slots hold the strings [fs],
    the others being [NULL]. *)
Definition slots (cap : nat) (fs : list (list ascii))
  : list (option (list ascii)) :=
  map Some fs ++ replicate (cap - length fs) None.

(** The array [val] of a decoder once the fields [fs] are stored. *)
Definition val_of (fs : list (list ascii)) : list (option (list ascii)) :=
  slots 25 fs.

(** The buffer as a dispatch pass leaves it: up to the terminator, each [$]
    that ends a candidate is overwritten with NUL.  [in_token] tells
    whether the previous byte belongs to a candidate. *)
Fixpoint cut (in_token : bool) (buffer : list ascii) : list ascii :=
  match buffer with
  | [] => []
  | c :: b =>
      if is_nul c then buffer
      else if Ascii.eqb c "$" then (if in_token then NUL else c) :: cut false b
      else c :: cut true b
  end.

(** The candidates [cs] dispatched one after the other, first to last. *)
Fixpoint run (cs : list (list ascii)) (gps_data : BN220_GPS)
  : res BN220_GPS :=
  match cs with
  | [] => Ok gps_data
  | c :: cs' => g ← dispatch gps_data c; run cs' g
  end.


(** A byte of a candidate: neither the delimiter nor the terminator. *)
Definition plain (d : ascii) (c : ascii) : Prop := c <> d /\ c <> NUL.

(** A buffer is at its end when nothing or a terminator is left. *)
Definition at_end (r : list ascii) : Prop :=
  r = [] \/ exists r', r = NUL :: r'.

(** The three outcomes of a call of [strtok] that resumes at the end of
    [pre], the buffer being [pre ++ rest]. *)
Inductive tok_step (pre rest : list ascii)
  : option nat * list ascii * nat -> Prop :=
  | tok_none n r1 :
      rest = replicate n "$"%char ++ r1 -> at_end r1 ->
      tok_step pre rest (None, pre ++ rest, (length pre + n)%nat)
  | tok_last n tok r2 :
      rest = replicate n "$"%char ++ tok ++ r2 ->
      Forall (plain "$") tok -> tok <> [] -> at_end r2 ->
      tok_step pre rest
        (Some (length pre + n)%nat, pre ++ rest,
         (length pre + n + length tok)%nat)
  | tok_next n tok r2 :
      rest = replicate n "$"%char ++ tok ++ "$"%char :: r2 ->
      Forall (plain "$") tok -> tok <> [] ->
      tok_step pre rest
        (Some (length pre + n)%nat,
         pre ++ replicate n "$"%char ++ tok ++ NUL :: r2,
         S (length pre + n + length tok)).

(** ** Decoders as lists of stores *)

(** One store into the record. *)
Inductive upd : Type :=
  | ULat (v : flt) | UNS (c : ascii) | ULon (v : flt) | UEW (c : ascii)
  | UAlt (v : flt) | UHdop (v : flt) | USat (n : Z) | UFix (n : Z)
  | UTime (t : list ascii) | UClear.

Definition apply_upd (u : upd) (g : BN220_GPS) : BN220_GPS :=
  match u with
  | ULat v => set_lat v g
  | UNS c => set_NS c g
  | ULon v => set_lon v g
  | UEW c => set_EW c g
  | UAlt v => set_altitude v g
  | UHdop v => set_hdop v g
  | USat n => set_satelliteCount n g
  | UFix n => set_fix n g
  | UTime t => set_lastMeasure t g
  | UClear => clear_time g
  end.

Fixpoint apply_upds (l : list upd) (g : BN220_GPS) : BN220_GPS :=
  match l with
  | [] => g
  | u :: l' => apply_upds l' (apply_upd u g)
  end.

(** A decoder run on a given sentence either faults whatever the record, or
    performs the same stores whatever the record. *)
Definition uniform (f : BN220_GPS -> res (Z * BN220_GPS)) : Prop :=
  (exists rc l, forall g, f g = Ok (rc, apply_upds l g))
  \/ (forall g, f g = Fault ReadPastAllocation).

Definition uniform_step (f : BN220_GPS -> res BN220_GPS) : Prop :=
  (exists l, forall g, f g = Ok (apply_upds l g))
  \/ (forall g, f g = Fault ReadPastAllocation).

(** ** Sample records and sentences *)

(** A record as it stands after an earlier fix taken at 08:15:00 UTC. *)
Definition gps_prev : BN220_GPS :=
  mkGPS (f64_of_int 47) "N" (f64_of_int 8) "E"
        (f32_of_int 500) (f32_of_int 1) 7 1 (bytes "081500.00" ++ [NUL]).

(** A line of the receiver, less its leading dollar. *)
Definition line (s : string) : list ascii := bytes s ++ [CR; LF].

(** GGA whose latitude field decodes to exactly zero degrees. *)
Definition gga_lat_zero : list ascii :=
  line "GPGGA,092725.00,0000.00000,N,00833.91590,E,1,08,1.01,499.6,M,48.0,M,,*5D".

(** GLL with an E/W indicator that is neither E nor W. *)
Definition gll_bad_ew : list ascii :=
  line "GPGLL,4717.11364,N,00833.91565,X,092321.00,A,A*7D".

(** GLL with a time field of four characters, and GLL without time field. *)
Definition gll_short_time : list ascii :=
  line "GPGLL,4717.11364,N,00833.91565,E,0923,A,A*4D".
Definition gll_no_time : list ascii :=
  bytes "GPGLL,4717.11364,N,00833.91565,E".

(** GLL and GGA carrying the same position. *)
Definition gll_fix : list ascii :=
  line "GPGLL,4717.11364,N,00833.91565,E,092321.00,A,A*60".
Definition gga_fix : list ascii :=
  line "GPGGA,092725.00,4717.11364,N,00833.91565,E,1,08,1.01,499.6,M,48.0,M,,*53".

(** GGA with an empty dilution field and an altitude of zero. *)
Definition gga_no_hdop : list ascii :=
  line "GPGGA,092725.00,4717.11399,N,00833.91590,E,1,08,,0.0,M,48.0,M,,*47".

(** ** Sample buffers *)

Definition gsa_five : list ascii :=
  line "GPGSA,A,3,10,07,05,02,29,,,,,,,,1.72,1.03,1.38*04".

(** The GGA line of [gga_fix] with a wrong checksum. *)
Definition gga_bad_checksum : list ascii :=
  line "GPGGA,092725.00,4717.11364,N,00833.91565,E,1,08,1.01,499.6,M,48.0,M,,*00".

Definition gsv_line : list ascii :=
  line "GPGSV,3,1,11,10,63,137,17,07,61,098,15,05,59,290,20,08,54,157,30*70".

(** A valid GSA, a GGA with a bad checksum, a valid GLL. *)
Definition buf_mixed : list ascii :=
  bytes "$" ++ gsa_five ++ bytes "$" ++ gga_bad_checksum ++ bytes "$" ++ gll_fix.

(** A valid GGA reporting eight satellites, then a valid GSA listing five. *)
Definition buf_gga_gsa : list ascii :=
  bytes "$" ++ gga_fix ++ bytes "$" ++ gsa_five.

(** One sentence, as the receiver sends it. *)
Definition buf_single : list ascii := bytes "$" ++ gsv_line.

(** Sixteen candidates. *)
Definition buf_sixteen : list ascii :=
  bytes "$1$2$3$4$5$6$7$8$9$A$B$C$D$E$F$G".

(** ** Notions for the tokenizer and the record *)

(** The number of occurrences of [d] in [s]. *)
Fixpoint count_char (d : ascii) (s : list ascii) : nat :=
  match s with
  | [] => 0%nat
  | c :: s' => ((if Ascii.eqb c d then 1 else 0) + count_char d s')%nat
  end.

(** The pieces [ts] put back together with [d] between them. *)
Fixpoint join (d : ascii) (ts : list (list ascii)) : list ascii :=
  match ts with
  | [] => []
  | [t] => t
  | t :: ts' => t ++ d :: join d ts'
  end.

(** The satellites a GSA sentence lists: the non-empty fields among the
    twelve from index 3 on. *)
Definition prn_used (fs : list (list ascii)) : Z :=
  Z.of_nat (length (filter (fun t => nonempty t = true) (take 12 (drop 3 fs)))).

(** ** Further sample sentences *)

(** GLL at latitude 0 degrees 12 minutes north. *)
Definition gll_equator : list ascii :=
  line "GPGLL,0012.34567,N,00833.91565,E,092321.00,A,A*64".

(** GLL whose longitude field has eight characters. *)
Definition gll_short_lon : list ascii :=
  line "GPGLL,4916.45000,N,12311.12,W,225444.00,A*2F".

(** GGA of the southern and western hemispheres. *)
Definition gga_south_west : list ascii :=
  line "GPGGA,092725.00,3351.12345,S,07040.54321,W,2,11,0.80,520.0,M,,M,,*4D".

(** GGA whose latitude field has six characters. *)
Definition gga_short_lat : list ascii :=
  line "GPGGA,092725.00,4807.0,N,01131.00000,E,1,08,0.9,545.4,M,46.9,M,,*64".

(** The record as a reader of it may rely on: a fix flag that is 0 or 1 and
    a time field of ten bytes holding a terminated string. *)
Definition gps_wf (g : BN220_GPS) : Prop :=
  (fix_ g = 0 \/ fix_ g = 1)
  /\ length (lastMeasure g) = 10%nat
  /\ NUL ∈ lastMeasure g.

(** A candidate that leaves the record alone: it lacks the line end, or
    fails the checksum, or carries none of the tags GLL, GSA and GGA. *)
Definition inert (c : list ascii) : Prop :=
  strstr c [CR; LF] = false
  \/ getChecksum c = 0
  \/ (strstr c (bytes "GLL") = false /\ strstr c (bytes "GSA") = false
      /\ strstr c (bytes "GGA") = false).

(** A buffer of inert candidates only. *)
Definition buf_inert : list ascii :=
  bytes "$" ++ gsv_line ++ bytes "$" ++ gga_bad_checksum
  ++ bytes "$GPRMC,092725.00,A*00".


(** Whether the byte at [i] is a dollar that ends a candidate: it lies
    before the terminator and directly follows a byte that is not a
    dollar. *)
Definition ends_candidate (b : list ascii) (i : nat) : bool :=
  match i with
  | O => false
  | S j =>
      bool_decide (b !! i = Some "$"%char)
      && negb (bool_decide (b !! j = Some "$"%char))
      && bool_decide (NUL ∉ take i b)
  end.

(** Candidates between dollars, with dollars in front and doubled. *)
Definition buf_dollars : list ascii := bytes "$$a$b$$c".

(** ** Allocation that may fail *)

(** The outcomes of the allocations of one call of a decoder, [true] for
    success: [a 0] is that of [strdup(nmea_sentence)] and [a (S i)] that of
    the block of token [i]. *)
Definition alloc : Type := nat -> bool.

Definition all_succeed : alloc := fun _ => true.





(** [val[cnt++] = strdup(tok)] of [nmea_GGA]: the result is stored as it
    comes, so that slot [i] is [NULL] when its allocation failed. *)
Definition unchecked (a : alloc) (val : list (option (list ascii)))
  : list (option (list ascii)) :=
  imap (fun i v => if a (S i) then v else None) val.

(** [nmea_GGA] with its allocations: [buf] is tested, the copies of the
    tokens are not. *)
Definition nmea_GGA_alloc (a : alloc) (gps_data : BN220_GPS)
    (nmea_sentence : list ascii) : res (Z * BN220_GPS) :=
  if negb (a 0%nat) then Ok (0, gps_data)
  else
  let '(val0, cnt) := tokenize nmea_sentence in
  let val := unchecked a val0 in
  if (cnt <? 10)%nat then Ok (0, gps_data)
  else
    v1 ← field val 1;
    let g1 :=
      if (9 <=? strlen v1)%nat then write_time v1 gps_data
      else clear_time gps_data in
    v3 ← field val 3;
    let lat_ind := char_at v3 0 in
    if negb (is_NS lat_ind) then Ok (0, g1)
    else
      v2 ← field val 2;
      lat_d ← memcpy (replicate 3 NUL) v2 0 2;
      lat_m ← memcpy (replicate 8 NUL) v2 2 6;
      let lat_deg_i := strtol lat_d 10 in
      let lat_deg_f := f32_div (strtof lat_m) (f32_of_int 60) in
      let lat := f64_of_f32 (f32_add (f32_of_int lat_deg_i) lat_deg_f) in
      if f_leb lat (f64_of_int 0) || f_geb lat (f64_of_int 90) then Ok (0, g1)
      else
        v5 ← field val 5;
        let lon_ind := char_at v5 0 in
        if negb (is_EW lon_ind) then Ok (0, g1)
        else
          v4 ← field val 4;
          lon_d ← memcpy (replicate 4 NUL) v4 0 3;
          lon_m ← memcpy (replicate 8 NUL) v4 3 7;
          let lon_deg_i := strtol lon_d 10 in
          let lon_deg_f := f32_div (strtof lon_m) (f32_of_int 60) in
          let lon := f64_of_f32 (f32_add (f32_of_int lon_deg_i) lon_deg_f) in
          if f_leb lon (f64_of_int 0) || f_geb lon (f64_of_int 180)
          then Ok (0, g1)
          else
            v6 ← field val 6;
            v7 ← field val 7;
            v8 ← field val 8;
            v9 ← field val 9;
            let g2 := set_lat (if Ascii.eqb lat_ind "S" then SFopp lat else lat) g1 in
            let g3 := set_lon (if Ascii.eqb lon_ind "W" then SFopp lon else lon) g2 in
            let g4 := set_fix (if 0 <? strtol v6 10 then 1 else 0) g3 in
            let g5 := set_satelliteCount (strtol v7 10) g4 in
            let g6 := set_hdop (if f_nonzero (strtof v8) then strtof v8 else hdop g5) g5 in
            let g7 := set_altitude
                        (if f_nonzero (strtof v9) then strtof v9 else altitude g6) g6 in
            Ok (1, g7).






(** Outcomes in which one allocation fails: that of token 1 in a decoder,
    and that of [data[1]]. *)
Definition fail_token_1 : alloc := fun i => negb (i =? 2)%nat.

(** * Properties *)

(** ** C strings *)

Lemma is_nul_true c : is_nul c = true <-> c = NUL.
Proof. unfold is_nul. apply Ascii.eqb_eq. Qed.

Lemma is_nul_false c : is_nul c = false <-> c <> NUL.
Proof. unfold is_nul. apply Ascii.eqb_neq. Qed.

Lemma cstr_no_nul m : NUL ∉ cstr m.
Proof.
  induction m as [|c m IH]; simpl.
  - apply not_elem_of_nil.
  - destruct (is_nul c) eqn:E.
    + apply not_elem_of_nil.
    + apply not_elem_of_cons. split; [|exact IH].
      apply is_nul_false in E. congruence.
Qed.

Lemma cstr_id s : NUL ∉ s -> cstr s = s.
Proof.
  induction s as [|c s IH]; simpl; intros H; [reflexivity|].
  apply not_elem_of_cons in H as [Hc Hs].
  destruct (is_nul c) eqn:E.
  - apply is_nul_true in E. congruence.
  - f_equal. auto.
Qed.

Lemma cstr_cstr m : cstr (cstr m) = cstr m.
Proof. apply cstr_id, cstr_no_nul. Qed.

Lemma cstr_app_nul a b : NUL ∉ a -> cstr (a ++ NUL :: b) = a.
Proof.
  induction a as [|c a IH]; simpl; intros H; [reflexivity|].
  apply not_elem_of_cons in H as [Hc Ha].
  destruct (is_nul c) eqn:E.
  - apply is_nul_true in E. congruence.
  - f_equal. auto.
Qed.

Lemma strchr_app body c tail :
  c <> NUL -> c ∉ body -> NUL ∉ body ->
  strchr (body ++ c :: tail) c = Some (length body).
Proof.
  intros Hc. induction body as [|x body IH]; simpl; intros Hb Hn.
  - destruct (is_nul c) eqn:E; [apply is_nul_true in E; congruence|].
    rewrite Ascii.eqb_refl. reflexivity.
  - apply not_elem_of_cons in Hb as [Hx Hb].
    apply not_elem_of_cons in Hn as [Hx0 Hn].
    destruct (is_nul x) eqn:E; [apply is_nul_true in E; congruence|].
    destruct (Ascii.eqb x c) eqn:E2; [apply Ascii.eqb_eq in E2; congruence|].
    rewrite IH by assumption. reflexivity.
Qed.

Lemma strchr_Some s c n :
  strchr s c = Some n ->
  exists body tail,
    s = body ++ c :: tail /\ length body = n /\ (c ∉ body) /\ (NUL ∉ body).
Proof.
  revert n. induction s as [|x s IH]; simpl; intros n H; [discriminate|].
  destruct (is_nul x) eqn:E; [discriminate|].
  destruct (Ascii.eqb x c) eqn:E2.
  - apply Ascii.eqb_eq in E2. subst x. injection H as <-.
    exists [], s. repeat split; apply not_elem_of_nil.
  - destruct (strchr s c) as [k|] eqn:Hk; [|discriminate].
    simpl in H. injection H as <-.
    destruct (IH k eq_refl) as (body & tail & -> & Hl & Hc & Hn).
    exists (x :: body), tail. simpl. repeat split.
    + congruence.
    + apply not_elem_of_cons. split; [|exact Hc].
      apply Ascii.eqb_neq in E2. congruence.
    + apply not_elem_of_cons. split; [|exact Hn].
      apply is_nul_false in E. congruence.
Qed.

Lemma strchr_None s c : NUL ∉ s -> strchr s c = None -> c ∉ s.
Proof.
  induction s as [|x s IH]; simpl; intros Hn H; [apply not_elem_of_nil|].
  apply not_elem_of_cons in Hn as [Hx Hn].
  destruct (is_nul x) eqn:E; [apply is_nul_true in E; congruence|].
  destruct (Ascii.eqb x c) eqn:E2; [discriminate|].
  destruct (strchr s c) eqn:Hk; [discriminate|].
  apply not_elem_of_cons. split; [|auto].
  apply Ascii.eqb_neq in E2. congruence.
Qed.

(** ** The checksum verifier *)

Lemma xor_loop_acc l acc :
  fold_left xor_step l acc = Z.lxor acc (xor_bytes l).
Proof.
  revert acc. induction l as [|c l IH]; simpl; intros acc.
  - rewrite Z.lxor_0_r. reflexivity.
  - rewrite IH. unfold xor_step. rewrite Z.lxor_assoc. reflexivity.
Qed.

Lemma xor_loop l : fold_left xor_step l 0 = xor_bytes l.
Proof. rewrite xor_loop_acc. apply Z.lxor_0_l. Qed.

Lemma uchar_range c : 0 <= uchar c < 256.
Proof.
  unfold uchar. pose proof (N_ascii_bounded c) as H. lia.
Qed.

Lemma hexdigit_range c h : hexdigit c = Some h -> 0 <= h < 16.
Proof.
  unfold hexdigit, digit_in, digit_val. pose proof (uchar_range c).
  repeat (match goal with
          | |- context [if ?b then _ else _] => destruct b eqn:?
          end); intros [= <-]; lia.
Qed.

(** Two hexadecimal digits are read by [strtol] as one byte value. *)
Lemma hexdigit_plain c h s :
  hexdigit c = Some h ->
  is_nul c = false /\ isspace c = false /\ take_sign (c :: s) = (false, c :: s).
Proof.
  destruct c as [[] [] [] [] [] [] [] []]; vm_compute; intros H;
    (discriminate H || (repeat split; reflexivity)).
Qed.

Lemma strtol_hex_pair c1 c2 h1 h2 :
  hexdigit c1 = Some h1 -> hexdigit c2 = Some h2 ->
  strtol [c1; c2] 16 = 16 * h1 + h2.
Proof.
  intros H1 H2.
  destruct (hexdigit_plain c1 h1 [c2] H1) as (N1 & S1 & T1).
  destruct (hexdigit_plain c2 h2 [] H2) as (N2 & _ & _).
  pose proof (hexdigit_range _ _ H1). pose proof (hexdigit_range _ _ H2).
  unfold strtol. simpl cstr. rewrite N1, N2. simpl skip_space. rewrite S1, T1.
  assert (skip_0x 16 [c1; c2] = [c1; c2]) as ->.
  { destruct c1 as [[] [] [] [] [] [] [] []]; reflexivity. }
  unfold hexdigit in H1, H2. simpl. rewrite H1, H2.
  unfold clamp_long, LONG_MAX, LONG_MIN. lia.
Qed.

Lemma getChecksum_bool m : getChecksum m = 1 \/ getChecksum m = 0.
Proof.
  unfold getChecksum.
  repeat (match goal with
          | |- context [if ?b then _ else _] => destruct b
          | |- context [match ?o with Some _ => _ | None => _ end] => destruct o
          end); auto.
Qed.

(** The verifier on a sentence cut at its first star. *)
Lemma getChecksum_at_star body tail :
  NUL ∉ body ++ "*"%char :: tail -> "*"%char ∉ body ->
  getChecksum (body ++ "*"%char :: tail) =
    if ((length (body ++ "*"%char :: tail) <? 5)%nat || (length tail <? 2)%nat)%bool
    then 0
    else if xor_bytes body =? strtol [char_at tail 0; char_at tail 1] 16
         then 1 else 0.
Proof.
  intros Hn Hs. unfold getChecksum. rewrite (cstr_id _ Hn).
  destruct (length (body ++ "*"%char :: tail) <? 5)%nat eqn:E5; [reflexivity|].
  simpl orb.
  assert (NUL ∉ body) as Hnb.
  { intros Hin. apply Hn. apply elem_of_app. auto. }
  rewrite strchr_app by (assumption || discriminate).
  rewrite drop_app_length. unfold strlen.
  assert (NUL ∉ "*"%char :: tail) as Hnt.
  { intros Hin. apply Hn. apply elem_of_app. auto. }
  rewrite (cstr_id _ Hnt). simpl length.
  replace (S (length tail) <? 3)%nat with (length tail <? 2)%nat
    by (destruct (Nat.ltb_spec (length tail) 2), (Nat.ltb_spec (S (length tail)) 3); lia).
  destruct (length tail <? 2)%nat; [reflexivity|].
  rewrite take_app_length, xor_loop.
  unfold char_at.
  rewrite !lookup_app_r by lia.
  replace (length body + 1 - length body)%nat with 1%nat by lia.
  replace (length body + 2 - length body)%nat with 2%nat by lia.
  reflexivity.
Qed.

Lemma getChecksum_cstr m : getChecksum m = getChecksum (cstr m).
Proof. unfold getChecksum. rewrite cstr_cstr. reflexivity. Qed.

Lemma getChecksum_no_star m : "*"%char ∉ cstr m -> getChecksum m = 0.
Proof.
  intros Hs. unfold getChecksum.
  destruct (length (cstr m) <? 5)%nat; [reflexivity|].
  destruct (strchr (cstr m) "*"%char) as [n|] eqn:E; [|reflexivity].
  apply strchr_Some in E as (body & tail & E & _).
  exfalso. apply Hs. rewrite E. apply elem_of_app. right. left.
Qed.

(** C7. [getChecksum] succeeds exactly on the sentences of at least five
    bytes that hold a star followed by two characters whose base-16 value,
    as [strtol] reads it, is the XOR of all bytes before the star; it fails
    on every sentence shorter than five bytes, without a star, or with fewer
    than two characters after the star.  Two hexadecimal digits [c1 c2] are
    read as [16 * c1 + c2]. *)
Theorem getChecksum_correct (m : list ascii) :
  let s := cstr m in
  (getChecksum m = 1 <->
     (5 <= length s)%nat /\
     exists body c1 c2 rest,
       s = body ++ "*"%char :: c1 :: c2 :: rest /\ ("*"%char ∉ body) /\
       xor_bytes body = strtol [c1; c2] 16)
  /\ (getChecksum m = 1 \/ getChecksum m = 0)
  /\ ((length s < 5)%nat -> getChecksum m = 0)
  /\ ("*"%char ∉ s -> getChecksum m = 0)
  /\ (forall body tail,
        s = body ++ "*"%char :: tail -> "*"%char ∉ body ->
        (length tail < 2)%nat -> getChecksum m = 0)
  /\ (forall c1 c2 h1 h2,
        hexdigit c1 = Some h1 -> hexdigit c2 = Some h2 ->
        strtol [c1; c2] 16 = 16 * h1 + h2).
Proof.
  intros s. pose proof (cstr_no_nul m) as Hn. fold s in Hn.
  assert (forall body tail, s = body ++ "*"%char :: tail -> "*"%char ∉ body ->
            getChecksum m =
              if ((length s <? 5)%nat || (length tail <? 2)%nat)%bool then 0
              else if xor_bytes body =? strtol [char_at tail 0; char_at tail 1] 16
                   then 1 else 0) as Hcut.
  { intros body tail E Hb. rewrite getChecksum_cstr. fold s.
    rewrite E in Hn |- *. apply getChecksum_at_star; assumption. }
  split; [|split; [|split; [|split; [|split]]]].
  - split.
    + intros H1.
      destruct (strchr s "*"%char) as [n|] eqn:E.
      * apply strchr_Some in E as (body & tail & E & _ & Hb & _).
        rewrite (Hcut body tail E Hb) in H1.
        destruct (Nat.ltb_spec (length s) 5); [discriminate H1|].
        destruct (Nat.ltb_spec (length tail) 2); [discriminate H1|].
        simpl in H1. split; [assumption|].
        destruct tail as [|c1 [|c2 rest]]; simpl in *; try lia.
        exists body, c1, c2, rest. repeat split; try assumption.
        unfold char_at in H1. simpl in H1.
        destruct (Z.eqb_spec (xor_bytes body) (strtol [c1; c2] 16));
          [assumption|discriminate].
      * apply strchr_None in E; [|assumption].
        rewrite (getChecksum_no_star m E) in H1. discriminate.
    + intros (H5 & body & c1 & c2 & rest & E & Hb & Hx).
      rewrite (Hcut body _ E Hb).
      destruct (Nat.ltb_spec (length s) 5); [lia|].
      simpl. unfold char_at. simpl. rewrite Hx, Z.eqb_refl. reflexivity.
  - apply getChecksum_bool.
  - intros H5. unfold getChecksum. fold s.
    destruct (Nat.ltb_spec (length s) 5); [reflexivity|lia].
  - apply getChecksum_no_star.
  - intros body tail E Hb Ht. rewrite (Hcut body tail E Hb).
    destruct (Nat.ltb_spec (length tail) 2); [|lia].
    rewrite orb_true_r. reflexivity.
  - apply strtol_hex_pair.
Qed.

(** A sentence of the NMEA standard, run through every part of C7. *)
Lemma getChecksum_correct_witness :
  getChecksum (bytes "GPGGA,123519,4807.038,N,01131.000,E,1,08,0.9,545.4,M,46.9,M,,*47") = 1
  /\ getChecksum (bytes "GP*7") = 0
  /\ getChecksum (bytes "GPGGA,123519") = 0
  /\ getChecksum (bytes "GPGGA,123519*4") = 0
  /\ strtol (bytes "47") 16 = 71.
Proof.
  pose (ok := bytes "GPGGA,123519,4807.038,N,01131.000,E,1,08,0.9,545.4,M,46.9,M,,*47").
  destruct (getChecksum_correct ok) as (Hiff & _ & _ & _ & _ & Hhex).
  destruct (getChecksum_correct (bytes "GP*7")) as (_ & _ & Hshort & _).
  destruct (getChecksum_correct (bytes "GPGGA,123519")) as (_ & _ & _ & Hstar & _).
  destruct (getChecksum_correct (bytes "GPGGA,123519*4")) as (_ & _ & _ & _ & Htail & _).
  split; [|split; [|split; [|split]]].
  - apply Hiff. split; [vm_compute; lia|].
    exists (bytes "GPGGA,123519,4807.038,N,01131.000,E,1,08,0.9,545.4,M,46.9,M,,"),
      "4"%char, "7"%char, [].
    split; [reflexivity|]. split; [|vm_compute; reflexivity].
    apply (bool_decide_unpack _). vm_compute. exact I.
  - apply Hshort. vm_compute. lia.
  - apply Hstar. apply (bool_decide_unpack _). vm_compute. exact I.
  - apply (Htail (bytes "GPGGA,123519") [ "4"%char ]).
    + reflexivity.
    + apply (bool_decide_unpack _). vm_compute. exact I.
    + simpl. lia.
  - apply (Hhex "4"%char "7"%char 4 7); reflexivity.
Defined.

(** ** The field tokenizer *)

Lemma split_on_nonnil d s : split_on d s <> [].
Proof.
  destruct s as [|c s]; simpl; [discriminate|].
  destruct (Ascii.eqb c d); [discriminate|].
  destruct (split_on d s); discriminate.
Qed.

Lemma is_delim_single d c : is_delim [d] c = Ascii.eqb c d.
Proof. unfold is_delim. simpl. apply orb_false_r. Qed.

(** [strcspn] finds the end of the first piece. *)
Lemma split_on_strcspn d s :
  NUL ∉ s ->
  let n := strcspn s [d] in
  (n <= length s)%nat /\
  if (n <? length s)%nat
  then split_on d s = take n s :: split_on d (drop (S n) s)
  else split_on d s = [s].
Proof.
  induction s as [|c s IH]; cbn [strcspn split_on length]; intros Hn.
  - split; [lia|reflexivity].
  - apply not_elem_of_cons in Hn as [Hc Hs].
    destruct (is_nul c) eqn:E; [apply is_nul_true in E; congruence|].
    rewrite is_delim_single.
    destruct (Ascii.eqb c d) eqn:Ed.
    + split; [lia|]. reflexivity.
    + destruct (IH Hs) as [Hle IH']. split; [lia|].
      change (S (strcspn s [d]) <? S (length s))%nat
        with (strcspn s [d] <? length s)%nat.
      destruct (strcspn s [d] <? length s)%nat.
      * rewrite IH'. reflexivity.
      * rewrite IH'. reflexivity.
Qed.

Lemma slots_store cap fs t :
  (length fs < cap)%nat ->
  <[length fs := Some t]> (slots cap fs) = slots cap (fs ++ [t]).
Proof.
  intros Hl. unfold slots.
  rewrite <- (length_map Some fs) at 1.
  rewrite insert_app_r_alt by lia. rewrite Nat.sub_diag.
  rewrite length_app. simpl length.
  replace (cap - length fs)%nat with (S (cap - (length fs + 1))) by lia.
  simpl. rewrite map_app. rewrite <- app_assoc. reflexivity.
Qed.

Lemma slot_slots cap fs i : slot (slots cap fs) i = fs !! i.
Proof.
  unfold slot, slots.
  destruct (decide (i < length fs)%nat) as [Hlt|Hge].
  - rewrite lookup_app_l by (rewrite length_map; lia).
    rewrite list_lookup_fmap.
    destruct (fs !! i); reflexivity.
  - rewrite lookup_app_r by (rewrite length_map; lia).
    rewrite (lookup_ge_None_2 fs) by lia.
    destruct (replicate _ _ !! _) eqn:E; [|reflexivity].
    apply lookup_replicate in E as [-> _]. reflexivity.
Qed.

Lemma field_slots cap fs i :
  field (slots cap fs) i =
    match fs !! i with Some t => Ok t | None => Fault NullDereference end.
Proof. unfold field. rewrite slot_slots. reflexivity. Qed.

Lemma val_of_store fs t :
  (length fs < 25)%nat ->
  <[length fs := Some t]> (val_of fs) = val_of (fs ++ [t]).
Proof. apply slots_store. Qed.

Lemma split_fields_spec room s fs :
  NUL ∉ s -> (length fs + room = 25)%nat ->
  split_fields room (Some s) (val_of fs) (length fs) =
    (val_of (fs ++ take room (split_on "," s)),
     length (fs ++ take room (split_on "," s))).
Proof.
  revert s fs. induction room as [|room IH]; intros s fs Hn Hl.
  - simpl. rewrite app_nil_r.
    match goal with |- context [if ?b then _ else _] => destruct b end;
      reflexivity.
  - simpl split_fields. unfold strlen. rewrite (cstr_id _ Hn).
    destruct (split_on_strcspn "," s Hn) as [Hle Hsp].
    change (bytes ",") with [","%char].
    destruct (strcspn s [","%char] <? length s)%nat.
    + rewrite Hsp. simpl take.
      rewrite val_of_store by lia.
      replace (S (length fs)) with (length (fs ++ [take (strcspn s [","%char]) s]))
        by (rewrite length_app; simpl; lia).
      rewrite IH.
      * rewrite <- app_assoc. reflexivity.
      * intros Hin. apply Hn. eapply subseteq_drop, Hin.
      * rewrite length_app. simpl. lia.
    + rewrite Hsp. simpl take. rewrite take_nil.
      rewrite val_of_store by lia.
      destruct room; simpl; rewrite length_app; simpl;
        replace (length fs + 1)%nat with (S (length fs)) by lia; reflexivity.
Qed.

Lemma tokenize_spec s : tokenize s = (val_of (fields s), length (fields s)).
Proof.
  unfold tokenize, fields.
  change (replicate 25 None) with (val_of []).
  change 0%nat with (@length (list ascii) []) at 1.
  apply split_fields_spec; [apply cstr_no_nul|reflexivity].
Qed.

Lemma fields_length s : (length (fields s) <= 25)%nat.
Proof. unfold fields. rewrite length_take. lia. Qed.

Lemma fields_no_nul s t : t ∈ fields s -> NUL ∉ t.
Proof.
  unfold fields. intros Hin. apply subseteq_take in Hin.
  pose proof (cstr_no_nul s) as Hn. revert t Hin.
  induction (cstr s) as [|c l IH]; simpl; intros t Hin.
  - apply list_elem_of_singleton in Hin. subst t. apply not_elem_of_nil.
  - apply not_elem_of_cons in Hn as [Hc Hl].
    destruct (Ascii.eqb c ",").
    + apply elem_of_cons in Hin as [->|Hin]; [apply not_elem_of_nil|auto].
    + destruct (split_on "," l) as [|t0 ts] eqn:E.
      * apply list_elem_of_singleton in Hin. subst t.
        apply not_elem_of_cons. split; [congruence|apply not_elem_of_nil].
      * apply elem_of_cons in Hin as [->|Hin].
        -- apply not_elem_of_cons. split; [congruence|].
           apply IH; [assumption|left].
        -- apply IH; [assumption|right; assumption].
Qed.

Lemma slot_val_of fs i : slot (val_of fs) i = fs !! i.
Proof. apply slot_slots. Qed.

Lemma field_val_of fs i :
  field (val_of fs) i =
    match fs !! i with Some t => Ok t | None => Fault NullDereference end.
Proof. apply field_slots. Qed.

(** The C string left in the destination of a [memcpy] out of a token. *)
Lemma memcpy_cstr k t off n x :
  NUL ∉ t -> (0 < n < k)%nat ->
  memcpy (replicate k NUL) t off n = Ok x ->
  cstr x = take n (drop off t).
Proof.
  intros Hn Hk. unfold memcpy.
  destruct (Nat.leb_spec (off + n) (length t + 1)) as [Hle|]; [|discriminate].
  intros [= <-].
  assert (NUL ∉ take n (drop off t)) as Hn'.
  { intros Hin. apply Hn. eapply subseteq_drop, subseteq_take, Hin. }
  destruct (decide (off + n <= length t)%nat) as [Hin|Hout].
  - rewrite drop_app_le by lia.
    rewrite take_app_le by (rewrite length_drop; lia).
    rewrite drop_replicate.
    destruct (k - n)%nat as [|j] eqn:Ekn; [lia|]. simpl replicate.
    apply cstr_app_nul. assumption.
  - assert (off + n = length t + 1)%nat as Heq by lia.
    rewrite drop_app_le by lia.
    rewrite take_app_ge by (rewrite length_drop; lia).
    rewrite length_drop.
    replace (n - (length t - off))%nat with 1%nat by lia. simpl take.
    rewrite <- app_assoc. simpl.
    rewrite take_ge by (rewrite length_drop; lia).
    apply cstr_app_nul.
    intros Hin'. apply Hn. eapply subseteq_drop, Hin'.
Qed.

Lemma strtol_cstr x base : strtol x base = strtol (cstr x) base.
Proof. unfold strtol. rewrite cstr_cstr. reflexivity. Qed.

Lemma strtof_cstr x : strtof x = strtof (cstr x).
Proof. unfold strtof, strto. rewrite cstr_cstr. reflexivity. Qed.

(** ** The decoders, field by field *)

Ltac bind_ok :=
  unfold res_bind at 1; cbv beta iota.

(** One step through the body of a decoder: the next array slot, [memcpy]
    or test is decided. *)
Ltac decoder_step :=
  match goal with
  | |- res_bind _ _ _ (match ?o with Some _ => _ | None => _ end) = _ -> _ =>
      let E := fresh "Ef" in
      destruct o eqn:E; [bind_ok | discriminate]
  | |- res_bind _ _ _ (memcpy ?a ?b ?c ?d) = _ -> _ =>
      let E := fresh "Em" in
      destruct (memcpy a b c d) eqn:E; [bind_ok | discriminate]
  | |- (if ?b then _ else _) = _ -> _ =>
      let E := fresh "Eb" in destruct b eqn:E
  end.

Lemma Ok_pair_inj {A B} (a b : A) (x y : B) :
  @Ok (A * B) (a, x) = Ok (b, y) -> a = b /\ x = y.
Proof. intros [= -> ->]. auto. Qed.

Lemma strlen_field s i t : fields s !! i = Some t -> strlen t = length t.
Proof.
  intros E. unfold strlen. rewrite cstr_id; [reflexivity|].
  eapply fields_no_nul, list_elem_of_lookup_2, E.
Qed.

Lemma time_write_or_clear t gps :
  NUL ∉ t ->
  (if (9 <=? strlen t)%nat then write_time t gps else clear_time gps) =
    set_lastMeasure (time_of (Some t) (lastMeasure gps)) gps.
Proof.
  intros Hn. unfold strlen. rewrite (cstr_id _ Hn). unfold time_of.
  destruct (9 <=? length t)%nat; reflexivity.
Qed.

Lemma nmea_GGA_success gps s g' :
  nmea_GGA gps s = Ok (1, g') ->
  exists f1 f2 f3 f4 f5 f6 f7 f8 f9,
    fields s !! 1%nat = Some f1 /\ fields s !! 2%nat = Some f2 /\
    fields s !! 3%nat = Some f3 /\ fields s !! 4%nat = Some f4 /\
    fields s !! 5%nat = Some f5 /\ fields s !! 6%nat = Some f6 /\
    fields s !! 7%nat = Some f7 /\ fields s !! 8%nat = Some f8 /\
    fields s !! 9%nat = Some f9 /\
    is_NS (char_at f3 0) = true /\ is_EW (char_at f5 0) = true /\
    let la := deg_single (strtol (take 2 f2) 10) (strtof (take 6 (drop 2 f2))) in
    let lo := deg_single (strtol (take 3 f4) 10) (strtof (take 7 (drop 3 f4))) in
    f_leb la (f64_of_int 0) = false /\ f_geb la (f64_of_int 90) = false /\
    f_leb lo (f64_of_int 0) = false /\ f_geb lo (f64_of_int 180) = false /\
    g' = mkGPS (if Ascii.eqb (char_at f3 0) "S" then SFopp la else la)
               (NS gps)
               (if Ascii.eqb (char_at f5 0) "W" then SFopp lo else lo)
               (EW gps)
               (if f_nonzero (strtof f9) then strtof f9 else altitude gps)
               (if f_nonzero (strtof f8) then strtof f8 else hdop gps)
               (strtol f7 10)
               (if 0 <? strtol f6 10 then 1 else 0)
               (time_of (Some f1) (lastMeasure gps)).
Proof.
  unfold nmea_GGA. rewrite tokenize_spec. cbv beta iota zeta.
  rewrite !field_val_of. unfold mbind.
  decoder_step; [discriminate|].
  do 3 decoder_step; [discriminate|].
  do 4 decoder_step; [discriminate|].
  do 2 decoder_step; [discriminate|].
  do 4 decoder_step; [discriminate|].
  do 4 decoder_step.
  intros H. apply Ok_pair_inj in H as [_ <-].
  pose proof (fields_no_nul s) as Hnul.
  assert (NUL ∉ l) as N1 by (eapply Hnul, list_elem_of_lookup_2; eassumption).
  assert (NUL ∉ l1) as N2 by (eapply Hnul, list_elem_of_lookup_2; eassumption).
  assert (NUL ∉ l3) as N4 by (eapply Hnul, list_elem_of_lookup_2; eassumption).
  rewrite (strtol_cstr a), (strtof_cstr a0), (strtol_cstr a1), (strtof_cstr a2) in *.
  rewrite (memcpy_cstr 3 _ _ 2 _ N2 ltac:(lia) Em) in *.
  rewrite (memcpy_cstr 8 _ _ 6 _ N2 ltac:(lia) Em0) in *.
  rewrite (memcpy_cstr 4 _ _ 3 _ N4 ltac:(lia) Em1) in *.
  rewrite (memcpy_cstr 8 _ _ 7 _ N4 ltac:(lia) Em2) in *.
  rewrite (time_write_or_clear _ _ N1).
  apply orb_false_iff in Eb1 as [? ?]. apply orb_false_iff in Eb3 as [? ?].
  apply negb_false_iff in Eb0, Eb2.
  exists l, l1, l0, l3, l2, l4, l5, l6, l7.
  repeat (split; [assumption || reflexivity|]).
  reflexivity.
Qed.

Lemma nmea_GGA_reject gps s g' :
  nmea_GGA gps s = Ok (0, g') ->
  ((length (fields s) < 10)%nat /\ g' = gps) \/
  (exists f1, (10 <= length (fields s))%nat /\ fields s !! 1%nat = Some f1 /\
     g' = set_lastMeasure (time_of (Some f1) (lastMeasure gps)) gps).
Proof.
  unfold nmea_GGA. rewrite tokenize_spec. cbv beta iota zeta.
  rewrite !field_val_of. unfold mbind.
  decoder_step.
  { intros H. apply Ok_pair_inj in H as [_ <-]. left.
    apply Nat.ltb_lt in Eb. auto. }
  apply Nat.ltb_ge in Eb.
  assert (forall f1, fields s !! 1%nat = Some f1 ->
            Ok (0, if (9 <=? strlen f1)%nat then write_time f1 gps
                   else clear_time gps) = Ok (0, g') ->
            exists f1, (10 <= length (fields s))%nat /\
              fields s !! 1%nat = Some f1 /\
              g' = set_lastMeasure (time_of (Some f1) (lastMeasure gps)) gps)
    as Hfail.
  { intros f1 E1 H. apply Ok_pair_inj in H as [_ <-].
    exists f1. repeat split; try assumption.
    apply time_write_or_clear.
    eapply fields_no_nul, list_elem_of_lookup_2, E1. }
  do 3 decoder_step; [right; eauto|].
  do 4 decoder_step; [right; eauto|].
  do 2 decoder_step; [right; eauto|].
  do 4 decoder_step; [right; eauto|].
  do 4 decoder_step. discriminate.
Qed.

Lemma nmea_GLL_reject gps s g' : nmea_GLL gps s = Ok (0, g') -> g' = gps.
Proof.
  unfold nmea_GLL. rewrite tokenize_spec. cbv beta iota zeta.
  rewrite !field_val_of, slot_val_of. unfold mbind.
  assert (Ok (0, gps) = Ok (0, g') -> g' = gps) as Hsame.
  { intros H. apply Ok_pair_inj in H as [_ <-]. reflexivity. }
  decoder_step; [exact Hsame|].
  do 2 decoder_step; [|exact Hsame].
  do 8 decoder_step; [exact Hsame|].
  discriminate.
Qed.

Lemma nmea_GLL_success gps s g' :
  nmea_GLL gps s = Ok (1, g') ->
  exists f1 f2 f3 f4,
    fields s !! 1%nat = Some f1 /\ fields s !! 2%nat = Some f2 /\
    fields s !! 3%nat = Some f3 /\ fields s !! 4%nat = Some f4 /\
    is_NS (char_at f2 0) = true /\
    let lat_d_t := strtol (take 2 f1) 10 in
    let lat_m_t := strtof (take 6 (drop 2 f1)) in
    let lon_d_t := strtol (take 3 f3) 10 in
    let lon_m_t := strtof (take 7 (drop 3 f3)) in
    lat_d_t <> 0 /\ f_eqb lat_m_t zero = false /\
    lon_d_t <> 0 /\ f_eqb lon_m_t zero = false /\
    g' = mkGPS (deg_double lat_d_t lat_m_t) (char_at f2 0)
               (deg_double lon_d_t lon_m_t) (char_at f4 0)
               (altitude gps) (hdop gps) (satelliteCount gps) (fix_ gps)
               (time_of (fields s !! 5%nat) (lastMeasure gps)).
Proof.
  unfold nmea_GLL. rewrite tokenize_spec. cbv beta iota zeta.
  rewrite !field_val_of, slot_val_of. unfold mbind.
  decoder_step; [discriminate|].
  do 2 decoder_step; [|discriminate].
  do 8 decoder_step; [discriminate|].
  intros H. apply Ok_pair_inj in H as [_ <-].
  pose proof (fields_no_nul s) as Hnul.
  assert (NUL ∉ l0) as N1 by (eapply Hnul, list_elem_of_lookup_2; eassumption).
  assert (NUL ∉ l2) as N3 by (eapply Hnul, list_elem_of_lookup_2; eassumption).
  rewrite (strtol_cstr a), (strtof_cstr a0), (strtol_cstr a1), (strtof_cstr a2) in *.
  rewrite (memcpy_cstr 3 _ _ 2 _ N1 ltac:(lia) Em) in *.
  rewrite (memcpy_cstr 8 _ _ 6 _ N1 ltac:(lia) Em0) in *.
  rewrite (memcpy_cstr 4 _ _ 3 _ N3 ltac:(lia) Em1) in *.
  rewrite (memcpy_cstr 8 _ _ 7 _ N3 ltac:(lia) Em2) in *.
  apply orb_false_iff in Eb1 as [Eb1 ?].
  apply orb_false_iff in Eb1 as [Eb1 ?].
  apply orb_false_iff in Eb1 as [Eb1 ?].
  apply Z.eqb_neq in Eb1. apply Z.eqb_neq in H0.
  exists l0, l, l2, l1.
  repeat (split; [assumption || reflexivity|]).
  unfold time_of.
  destruct (fields s !! 5%nat) as [f5|] eqn:E5; [|reflexivity].
  rewrite (strlen_field _ _ _ E5).
  destruct (9 <=? length f5)%nat; reflexivity.
Qed.

(** ** Single decoders *)

(** C1.  The code at a GGA sentence of fifteen fields whose latitude decodes
    to exactly zero: [nmea_GGA] returns failure, yet the time of the rejected
    sentence has replaced the time of the last fix; nothing else changed. *)
Theorem nmea_GGA_reject_overwrites_time :
  fields gga_lat_zero !! 2%nat = Some (bytes "0000.00000")
  /\ deg_single (strtol (bytes "00") 10) (strtof (bytes "00.000")) = zero
  /\ nmea_GGA gps_prev gga_lat_zero =
       Ok (0, set_lastMeasure (bytes "092725.00" ++ [NUL]) gps_prev)
  /\ lastMeasure gps_prev = bytes "081500.00" ++ [NUL].
Proof. vm_compute. repeat split; reflexivity. Qed.

(** C2.  The code at a GLL sentence whose E/W indicator is [X], all other
    fields being well formed: [nmea_GLL] returns success and stores [X] as
    hemisphere, with the position and the time of the sentence. *)
Theorem nmea_GLL_accepts_bad_EW :
  fields gll_bad_ew !! 4%nat = Some (bytes "X")
  /\ nmea_GLL gps_prev gll_bad_ew =
       Ok (1, mkGPS (deg_double 47 (strtof (bytes "17.113"))) "N"
                    (deg_double 8 (strtof (bytes "33.9156"))) "X"
                    (altitude gps_prev) (hdop gps_prev)
                    (satelliteCount gps_prev) (fix_ gps_prev)
                    (bytes "092321.00" ++ [NUL])).
Proof. vm_compute. repeat split; reflexivity. Qed.

(** C4, as stated, fails: a successful GLL without a time field of nine
    characters does not leave [lastMeasure] as it was. *)
Lemma nmea_GLL_short_time_not_retained :
  ~ (forall gps s g',
       nmea_GLL gps s = Ok (1, g') ->
       (forall t, fields s !! 5%nat = Some t -> (length t < 9)%nat) ->
       lastMeasure g' = lastMeasure gps).
Proof.
  intros H.
  specialize (H gps_prev gll_short_time
                (set_lastMeasure (NUL :: bytes "81500.00" ++ [NUL])
                   (set_lon (deg_double 8 (strtof (bytes "33.9156")))
                      (set_lat (deg_double 47 (strtof (bytes "17.113"))) gps_prev)))).
  assert (nmea_GLL gps_prev gll_short_time =
            Ok (1, set_lastMeasure (NUL :: bytes "81500.00" ++ [NUL])
                     (set_lon (deg_double 8 (strtof (bytes "33.9156")))
                        (set_lat (deg_double 47 (strtof (bytes "17.113"))) gps_prev))))
    as Hrun by (vm_compute; reflexivity).
  specialize (H Hrun).
  assert (forall t, fields gll_short_time !! 5%nat = Some t -> (length t < 9)%nat)
    as Hshort.
  { intros t Ht. vm_compute in Ht. injection Ht as <-. simpl. lia. }
  specialize (H Hshort). vm_compute in H. discriminate H.
Qed.

(** C4, amended.  When [nmea_GLL] succeeds, [lastMeasure] receives the
    first nine characters of field 5 and a terminator if that field has at
    least nine characters; if the field is absent or shorter, the first
    byte of [lastMeasure] is set to NUL, the others stay, and the time
    string is empty: GLL clears the time just as GGA does. *)
Theorem nmea_GLL_time gps s g' :
  nmea_GLL gps s = Ok (1, g') ->
  (forall t, fields s !! 5%nat = Some t -> (9 <= length t)%nat ->
     lastMeasure g' = take 9 t ++ [NUL])
  /\ ((forall t, fields s !! 5%nat = Some t -> (length t < 9)%nat) ->
      lastMeasure g' = <[0%nat := NUL]> (lastMeasure gps)
      /\ cstr (lastMeasure g') = []).
Proof.
  intros H. apply nmea_GLL_success in H
    as (f1 & f2 & f3 & f4 & _ & _ & _ & _ & _ & _ & _ & _ & _ & ->).
  cbn [lastMeasure]. unfold time_of. split.
  - intros t -> Hl. destruct (Nat.leb_spec 9 (length t)); [reflexivity|lia].
  - intros Hshort.
    assert (forall l : list ascii, cstr (<[0%nat := NUL]> l) = []) as Hclr.
    { intros [|c l]; reflexivity. }
    destruct (fields s !! 5%nat) as [t|]; [|split; [reflexivity|apply Hclr]].
    specialize (Hshort t eq_refl).
    destruct (Nat.leb_spec 9 (length t)); [lia|].
    split; [reflexivity|apply Hclr].
Qed.

Lemma nmea_GLL_time_witness :
  lastMeasure (set_lastMeasure (bytes "092321.00" ++ [NUL]) gps_prev)
    = take 9 (bytes "092321.00") ++ [NUL]
  /\ cstr (NUL :: bytes "81500.00" ++ [NUL]) = [].
Proof.
  split.
  - refine (proj1 (nmea_GLL_time gps_prev gll_fix
                     (mkGPS (deg_double 47 (strtof (bytes "17.113"))) "N"
                        (deg_double 8 (strtof (bytes "33.9156"))) "E"
                        (altitude gps_prev) (hdop gps_prev)
                        (satelliteCount gps_prev) (fix_ gps_prev)
                        (bytes "092321.00" ++ [NUL])) _)
                  (bytes "092321.00") _ _).
    + vm_compute. reflexivity.
    + vm_compute. reflexivity.
    + vm_compute. lia.
  - refine (proj2 (proj2 (nmea_GLL_time gps_prev gll_no_time
                     (mkGPS (deg_double 47 (strtof (bytes "17.113"))) "N"
                        (deg_double 8 (strtof (bytes "33.9156"))) "E"
                        (altitude gps_prev) (hdop gps_prev)
                        (satelliteCount gps_prev) (fix_ gps_prev)
                        (NUL :: bytes "81500.00" ++ [NUL])) _) _)).
    + vm_compute. reflexivity.
    + intros t Ht. vm_compute in Ht. discriminate Ht.
Defined.

(** C5, as stated, fails: one raw latitude field, decoded by [nmea_GLL] and
    by [nmea_GGA] in the northern hemisphere, gives two different values. *)
Lemma gll_gga_degrees_differ :
  ~ (forall gps s1 s2 raw g1 g2,
       fields s1 !! 1%nat = Some raw -> fields s2 !! 2%nat = Some raw ->
       fields s2 !! 3%nat = Some (bytes "N") ->
       nmea_GLL gps s1 = Ok (1, g1) -> nmea_GGA gps s2 = Ok (1, g2) ->
       lat g1 = lat g2).
Proof.
  intros H.
  destruct (nmea_GLL gps_prev gll_fix) as [[rc1 g1]|] eqn:E1;
    [|vm_compute in E1; discriminate E1].
  destruct (nmea_GGA gps_prev gga_fix) as [[rc2 g2]|] eqn:E2;
    [|vm_compute in E2; discriminate E2].
  assert (rc1 = 1) as -> by (vm_compute in E1; congruence).
  assert (rc2 = 1) as -> by (vm_compute in E2; congruence).
  specialize (H gps_prev gll_fix gga_fix (bytes "4717.11364") g1 g2
                eq_refl eq_refl eq_refl E1 E2).
  vm_compute in E1, E2.
  injection E1 as <-. injection E2 as <-. vm_compute in H. discriminate H.
Qed.

(** C5, amended.  From one raw field both decoders read the same whole
    degrees (the first two characters for a latitude, three for a longitude,
    through [strtol]) and the same [float] minutes (the next six, or seven,
    characters through [strtof]), and both evaluate whole + minutes / 60:
    [nmea_GLL] with a [double] division by 60.0 and a [double] sum,
    [nmea_GGA] with a [float] division by 60.0f and a [float] sum that is
    widened when stored, and negated in the southern or western
    hemisphere. *)
Theorem degrees_GLL_GGA gps gps' s1 s2 g1 g2 :
  nmea_GLL gps s1 = Ok (1, g1) -> nmea_GGA gps' s2 = Ok (1, g2) ->
  (forall raw,
     fields s1 !! 1%nat = Some raw -> fields s2 !! 2%nat = Some raw ->
     let whole := strtol (take 2 raw) 10 in
     let minutes := strtof (take 6 (drop 2 raw)) in
     let single :=
       f64_of_f32 (f32_add (f32_of_int whole) (f32_div minutes (f32_of_int 60))) in
     lat g1 =
       f64_add (f64_of_int whole) (f64_div (f64_of_f32 minutes) (f64_of_int 60))
     /\ (lat g2 = single \/ lat g2 = SFopp single))
  /\ (forall raw,
       fields s1 !! 3%nat = Some raw -> fields s2 !! 4%nat = Some raw ->
       let whole := strtol (take 3 raw) 10 in
       let minutes := strtof (take 7 (drop 3 raw)) in
       let single :=
         f64_of_f32 (f32_add (f32_of_int whole) (f32_div minutes (f32_of_int 60))) in
       lon g1 =
         f64_add (f64_of_int whole) (f64_div (f64_of_f32 minutes) (f64_of_int 60))
       /\ (lon g2 = single \/ lon g2 = SFopp single)).
Proof.
  intros H1 H2.
  apply nmea_GLL_success in H1
    as (a1 & a2 & a3 & a4 & A1 & _ & A3 & _ & _ & _ & _ & _ & _ & ->).
  apply nmea_GGA_success in H2
    as (b1 & b2 & b3 & b4 & b5 & b6 & b7 & b8 & b9 & _ & B2 & _ & B4 & _ & _
        & _ & _ & _ & _ & _ & _ & _ & _ & _ & ->).
  cbn [lat lon]. split.
  - intros raw R1 R2. rewrite R1 in A1. rewrite R2 in B2.
    injection A1 as <-. injection B2 as <-.
    split; [reflexivity|].
    destruct (Ascii.eqb (char_at b3 0) "S"); [right|left]; reflexivity.
  - intros raw R1 R2. rewrite R1 in A3. rewrite R2 in B4.
    injection A3 as <-. injection B4 as <-.
    split; [reflexivity|].
    destruct (Ascii.eqb (char_at b5 0) "W"); [right|left]; reflexivity.
Qed.

Lemma degrees_GLL_GGA_witness :
  S754_finite false 6654802632044271 (-47) =
    f64_add (f64_of_int 47)
      (f64_div (f64_of_f32 (strtof (bytes "17.113"))) (f64_of_int 60))
  /\ S754_finite false 4821812680589312 (-49) =
    f64_of_f32 (f32_add (f32_of_int 8)
                  (f32_div (strtof (bytes "33.9156")) (f32_of_int 60))).
Proof.
  pose (g1 := mkGPS (S754_finite false 6654802632044271 (-47)) "N"
                (S754_finite false 4821812716380706 (-49)) "E"
                (altitude gps_prev) (hdop gps_prev)
                (satelliteCount gps_prev) (fix_ gps_prev)
                (bytes "092321.00" ++ [NUL])).
  pose (g2 := mkGPS (S754_finite false 6654802717048832 (-47)) "N"
                (S754_finite false 4821812680589312 (-49)) "E"
                (strtof (bytes "499.6")) (strtof (bytes "1.01")) 8 1
                (bytes "092725.00" ++ [NUL])).
  assert (nmea_GLL gps_prev gll_fix = Ok (1, g1)) as H1
    by (vm_compute; reflexivity).
  assert (nmea_GGA gps_prev gga_fix = Ok (1, g2)) as H2
    by (vm_compute; reflexivity).
  destruct (degrees_GLL_GGA gps_prev gps_prev gll_fix gga_fix g1 g2 H1 H2)
    as [Hlat Hlon].
  split.
  - exact (proj1 (Hlat (bytes "4717.11364") eq_refl eq_refl)).
  - destruct (proj2 (Hlon (bytes "00833.91565") eq_refl eq_refl)) as [E|E].
    + exact E.
    + vm_compute in E. discriminate E.
Defined.

(** A float is exactly zero when it is one of the two zeros. *)
Lemma f_nonzero_false x : f_nonzero x = false <-> exists sg, x = S754_zero sg.
Proof.
  unfold f_nonzero, f_eqb, zero. split.
  - destruct x as [sg|sg| |sg m e]; simpl; try discriminate; eauto.
    + destruct sg; discriminate.
    + destruct sg; discriminate.
  - intros [sg ->]. reflexivity.
Qed.

Lemma keep_if_zero x old :
  ((exists sg, x = S754_zero sg) -> (if f_nonzero x then x else old) = old)
  /\ ((forall sg, x <> S754_zero sg) -> (if f_nonzero x then x else old) = x).
Proof.
  split.
  - intros Hz. apply f_nonzero_false in Hz. rewrite Hz. reflexivity.
  - intros Hnz. destruct (f_nonzero x) eqn:E; [reflexivity|].
    apply f_nonzero_false in E as [sg E]. destruct (Hnz sg E).
Qed.

(** C8.  When [nmea_GGA] succeeds, fields 8 and 9 exist and are read by
    [strtof]; [hdop] (resp. [altitude]) is the value read, unless that value
    is exactly zero, as it is for an empty field, in which case the record
    keeps the value it had. *)
Theorem nmea_GGA_hdop_altitude gps s g' :
  nmea_GGA gps s = Ok (1, g') ->
  exists f8 f9,
    fields s !! 8%nat = Some f8 /\ fields s !! 9%nat = Some f9
    /\ ((forall sg, strtof f8 <> S754_zero sg) -> hdop g' = strtof f8)
    /\ ((exists sg, strtof f8 = S754_zero sg) -> hdop g' = hdop gps)
    /\ (f8 = [] -> hdop g' = hdop gps)
    /\ ((forall sg, strtof f9 <> S754_zero sg) -> altitude g' = strtof f9)
    /\ ((exists sg, strtof f9 = S754_zero sg) -> altitude g' = altitude gps)
    /\ (f9 = [] -> altitude g' = altitude gps).
Proof.
  intros H. apply nmea_GGA_success in H
    as (f1 & f2 & f3 & f4 & f5 & f6 & f7 & f8 & f9 & _ & _ & _ & _ & _ & _
        & _ & E8 & E9 & _ & _ & _ & _ & _ & _ & ->).
  exists f8, f9. cbn [hdop altitude].
  destruct (keep_if_zero (strtof f8) (hdop gps)) as [Z8 N8].
  destruct (keep_if_zero (strtof f9) (altitude gps)) as [Z9 N9].
  repeat split; try assumption.
  - intros ->. apply Z8. exists false. reflexivity.
  - intros ->. apply Z9. exists false. reflexivity.
Qed.

Lemma nmea_GGA_hdop_altitude_witness :
  exists g', nmea_GGA gps_prev gga_no_hdop = Ok (1, g')
    /\ hdop g' = hdop gps_prev /\ altitude g' = altitude gps_prev
    /\ nmea_GGA gps_prev gga_fix
       = Ok (1, set_altitude (strtof (bytes "499.6"))
                  (set_hdop (strtof (bytes "1.01"))
                     (set_satelliteCount 8
                        (set_lat (S754_finite false 6654802717048832 (-47))
                           (set_lon (S754_finite false 4821812680589312 (-49))
                              (set_lastMeasure (bytes "092725.00" ++ [NUL])
                                 gps_prev)))))).
Proof.
  destruct (nmea_GGA gps_prev gga_no_hdop) as [[rc g']|] eqn:E;
    [|vm_compute in E; discriminate E].
  assert (rc = 1) as -> by (vm_compute in E; congruence).
  exists g'. split; [reflexivity|].
  destruct (nmea_GGA_hdop_altitude gps_prev gga_no_hdop g' E)
    as (f8 & f9 & E8 & E9 & _ & _ & H8 & _ & H9 & _).
  vm_compute in E8, E9. injection E8 as <-. injection E9 as <-.
  split; [apply H8; reflexivity|].
  split; [apply H9; exists false; vm_compute; reflexivity|].
  vm_compute. reflexivity.
Defined.

(** ** Splitting the buffer: [strtok] against [candidates] and [cut] *)

Lemma strspn_spec r d :
  d <> NUL ->
  let n := strspn r [d] in
  take n r = replicate n d /\ (n <= length r)%nat /\
  (forall c r', drop n r = c :: r' -> c <> d).
Proof.
  intros Hd. induction r as [|c r IH]; cbn [strspn].
  - repeat split; [simpl; lia|]. intros c r'. simpl. discriminate.
  - destruct (is_nul c) eqn:E.
    { apply is_nul_true in E. subst c. repeat split; [simpl; lia|].
      intros c r'. simpl. intros [= <- _]. congruence. }
    rewrite is_delim_single. destruct (Ascii.eqb c d) eqn:Ed.
    + apply Ascii.eqb_eq in Ed. subst c.
      destruct IH as (IH1 & IH2 & IH3). simpl.
      repeat split; [f_equal; exact IH1|lia|exact IH3].
    + repeat split; [simpl; lia|]. simpl. intros c' r' [= <- _].
      apply Ascii.eqb_neq in Ed. exact Ed.
Qed.

Lemma strcspn_spec r d :
  let n := strcspn r [d] in
  (n <= length r)%nat /\ Forall (plain d) (take n r) /\
  (drop n r = [] \/ exists c r', drop n r = c :: r' /\ (c = NUL \/ c = d)).
Proof.
  induction r as [|c r IH]; cbn [strcspn].
  - repeat split; [simpl; lia|constructor|]. left. reflexivity.
  - destruct (is_nul c) eqn:E.
    { apply is_nul_true in E. repeat split; [simpl; lia|constructor|].
      right. exists c, r. auto. }
    rewrite is_delim_single. destruct (Ascii.eqb c d) eqn:Ed.
    + apply Ascii.eqb_eq in Ed. repeat split; [simpl; lia|constructor|].
      right. exists c, r. auto.
    + destruct IH as (IH1 & IH2 & IH3). simpl.
      repeat split; [lia| |exact IH3].
      constructor; [|exact IH2]. split.
      * apply Ascii.eqb_neq in Ed. exact Ed.
      * apply is_nul_false in E. exact E.
Qed.

Lemma char_at_app pre rest k :
  char_at (pre ++ rest) (length pre + k) = char_at rest k.
Proof.
  unfold char_at. rewrite lookup_app_r by lia.
  replace (length pre + k - length pre)%nat with k by lia. reflexivity.
Qed.

Lemma char_at_drop r n :
  char_at r n = match drop n r with [] => NUL | c :: _ => c end.
Proof.
  unfold char_at. rewrite <- (Nat.add_0_r n) at 1. rewrite <- lookup_drop.
  destruct (drop n r); reflexivity.
Qed.

Lemma cstr_at_end r : at_end r -> cstr r = [].
Proof. intros [->|[r' ->]]; reflexivity. Qed.

Lemma cstr_plain d tok r : Forall (plain d) tok -> cstr (tok ++ r) = tok ++ cstr r.
Proof.
  induction 1 as [|c tok [_ Hc] _ IH]; [reflexivity|]. simpl.
  destruct (is_nul c) eqn:E; [apply is_nul_true in E; congruence|].
  f_equal. exact IH.
Qed.

Lemma cstr_replicate d n r :
  d <> NUL -> cstr (replicate n d ++ r) = replicate n d ++ cstr r.
Proof.
  intros Hd. induction n as [|n IH]; [reflexivity|]. simpl.
  destruct (is_nul d) eqn:E; [apply is_nul_true in E; congruence|].
  f_equal. exact IH.
Qed.

Lemma split_on_plain d tok x :
  Forall (plain d) tok ->
  split_on d (tok ++ x) =
    match split_on d x with
    | t :: ts => (tok ++ t) :: ts
    | [] => [tok]
    end.
Proof.
  induction 1 as [|c tok [Hc _] _ IH]; simpl.
  - destruct (split_on d x) eqn:E; [|reflexivity].
    destruct (split_on_nonnil _ _ E).
  - destruct (Ascii.eqb c d) eqn:Ed; [apply Ascii.eqb_eq in Ed; congruence|].
    rewrite IH. destruct (split_on d x); reflexivity.
Qed.

Lemma candidates_skip n r :
  candidates (replicate n "$"%char ++ r) = candidates r.
Proof.
  unfold candidates. rewrite cstr_replicate by discriminate.
  induction n as [|n IH]; [reflexivity|]. simpl.
  rewrite filter_cons_False by (simpl; discriminate). exact IH.
Qed.

Lemma candidates_at_end r : at_end r -> candidates r = [].
Proof. intros H. unfold candidates. rewrite (cstr_at_end _ H). reflexivity. Qed.

Lemma candidates_last tok r :
  Forall (plain "$") tok -> tok <> [] -> at_end r ->
  candidates (tok ++ r) = [tok].
Proof.
  intros Hp Hne He. unfold candidates.
  rewrite (cstr_plain _ _ _ Hp), (cstr_at_end _ He), app_nil_r.
  rewrite <- (app_nil_r tok) at 1. rewrite (split_on_plain _ _ _ Hp).
  simpl. rewrite app_nil_r.
  rewrite filter_cons_True by (destruct tok; [congruence|reflexivity]).
  reflexivity.
Qed.

Lemma candidates_next tok r :
  Forall (plain "$") tok -> tok <> [] ->
  candidates (tok ++ "$"%char :: r) = tok :: candidates r.
Proof.
  intros Hp Hne. unfold candidates.
  rewrite (cstr_plain _ _ _ Hp). simpl cstr.
  rewrite (split_on_plain _ _ _ Hp). simpl. rewrite app_nil_r.
  rewrite filter_cons_True by (destruct tok; [congruence|reflexivity]).
  reflexivity.
Qed.

Lemma cut_at_end b r : at_end r -> cut b r = r.
Proof. intros [->|[r' ->]]; reflexivity. Qed.

Lemma cut_skip n r :
  cut false (replicate n "$"%char ++ r) = replicate n "$"%char ++ cut false r.
Proof. induction n as [|n IH]; [reflexivity|]. simpl. f_equal. exact IH. Qed.

Lemma cut_plain b tok r :
  Forall (plain "$") tok -> tok <> [] \/ b = true ->
  cut b (tok ++ r) = tok ++ cut true r.
Proof.
  intros Hp. revert b. induction Hp as [|c tok [Hc Hn] _ IH]; intros b Hb.
  - destruct Hb as [Hb| ->]; [congruence|reflexivity].
  - simpl. destruct (is_nul c) eqn:E; [apply is_nul_true in E; congruence|].
    destruct (Ascii.eqb c "$") eqn:Ed; [apply Ascii.eqb_eq in Ed; congruence|].
    f_equal. apply IH. right. reflexivity.
Qed.

Lemma strtok_step pre rest s olds :
  default olds s = length pre ->
  tok_step pre rest (strtok s (bytes "$") (pre ++ rest) olds).
Proof.
  intros Hs. unfold strtok. rewrite Hs. change (bytes "$") with ["$"%char].
  rewrite drop_app_length.
  destruct (strspn_spec rest "$" ltac:(discriminate)) as (Hd & Hn1 & Hhd).
  set (n1 := strspn rest ["$"%char]) in *.
  rewrite char_at_app, char_at_drop, drop_app_add.
  assert (rest = replicate n1 "$"%char ++ drop n1 rest) as Hrest.
  { rewrite <- Hd. symmetry. apply take_drop. }
  destruct (drop n1 rest) as [|c r1] eqn:Er1.
  { simpl. eapply tok_none; [exact Hrest|left; reflexivity]. }
  destruct (is_nul c) eqn:Ec.
  { apply is_nul_true in Ec. subst c.
    eapply tok_none; [exact Hrest|right; eauto]. }
  destruct (strcspn_spec (c :: r1) "$") as (Hn2 & Hp & Htl).
  set (n2 := strcspn (c :: r1) ["$"%char]) in *.
  assert (n2 <> 0)%nat as Hn2pos.
  { subst n2. cbn [strcspn]. rewrite Ec, is_delim_single.
    destruct (Ascii.eqb c "$") eqn:Ed; [|discriminate].
    apply Ascii.eqb_eq in Ed. destruct (Hhd c r1 eq_refl Ed). }
  assert (take n2 (c :: r1) <> []) as Hne.
  { destruct n2; [congruence|]. discriminate. }
  assert (c :: r1 = take n2 (c :: r1) ++ drop n2 (c :: r1)) as Hr1
    by (symmetry; apply take_drop).
  assert (length (take n2 (c :: r1)) = n2) as Hlen
    by (rewrite length_take; lia).
  rewrite <- Nat.add_assoc, char_at_app.
  rewrite (char_at_drop rest), <- drop_drop, Er1.
  destruct (drop n2 (c :: r1)) as [|c' r2] eqn:Er2.
  { simpl.
    replace (length pre + (n1 + n2))%nat
      with (length pre + n1 + length (take n2 (c :: r1)))%nat by lia.
    apply (tok_last pre rest n1 (take n2 (c :: r1)) []);
      [|exact Hp|exact Hne|left; reflexivity].
    rewrite Hrest at 1. rewrite Hr1 at 1. reflexivity. }
  destruct (is_nul c') eqn:Ec'.
  { apply is_nul_true in Ec'. subst c'.
    replace (length pre + (n1 + n2))%nat
      with (length pre + n1 + length (take n2 (c :: r1)))%nat by lia.
    apply (tok_last pre rest n1 (take n2 (c :: r1)) (NUL :: r2));
      [|exact Hp|exact Hne|right; exists r2; reflexivity].
    rewrite Hrest at 1. rewrite Hr1 at 1. reflexivity. }
  destruct Htl as [Htl|(c'' & r'' & Htl & Hc'')]; [discriminate Htl|].
  injection Htl as <- <-.
  destruct Hc'' as [->| ->]; [discriminate Ec'|].
  assert (<[(length pre + (n1 + n2))%nat := NUL]> (pre ++ rest)
          = pre ++ replicate n1 "$"%char ++ take n2 (c :: r1) ++ NUL :: r2)
    as ->.
  { rewrite insert_app_r. f_equal. rewrite Hrest at 1.
    rewrite <- (length_replicate n1 "$"%char) at 1.
    rewrite insert_app_r. f_equal. rewrite Hr1 at 1.
    rewrite <- Hlen at 1. rewrite <- (Nat.add_0_r (length _)).
    rewrite insert_app_r. reflexivity. }
  replace (length pre + (n1 + n2))%nat
    with (length pre + n1 + length (take n2 (c :: r1)))%nat by lia.
  apply (tok_next pre rest n1 (take n2 (c :: r1)) r2); [|exact Hp|exact Hne].
  rewrite Hrest at 1. rewrite Hr1 at 1. reflexivity.
Qed.

Lemma store_loop_None room mem olds data cnt :
  store_loop room None mem olds data cnt = Ok (mem, data, cnt).
Proof. destruct room; reflexivity. Qed.

Lemma store_loop_spec room : forall pre rest p done tok,
  (length done + room = 15)%nat ->
  cstr (drop p (pre ++ rest)) = tok ->
  store_loop room (Some p) (pre ++ rest) (length pre)
             (slots 15 done) (length done) =
    if (length (candidates rest) <? room)%nat
    then Ok (pre ++ cut false rest,
             slots 15 (done ++ tok :: candidates rest),
             length (done ++ tok :: candidates rest))
    else Fault (DataIndexOutOfBounds 15).
Proof.
  induction room as [|room IH]; intros pre rest p done tok Hroom Htok.
  - simpl. replace (length done) with 15%nat by lia. reflexivity.
  - cbn [store_loop]. rewrite Htok, slots_store by lia.
    pose proof (strtok_step pre rest None (length pre) eq_refl) as Hstep.
    destruct (strtok None (bytes "$") (pre ++ rest) (length pre))
      as [[sentence' mem'] olds'].
    assert (S (length done) = length (done ++ [tok])) as Hcnt
      by (rewrite length_app; simpl; lia).
    inversion Hstep as [n r1 Hrest Hend|n tok' r2 Hrest Hp Hne Hend
                        |n tok' r2 Hrest Hp Hne]; subst sentence' mem' olds'.
    + rewrite store_loop_None.
      rewrite Hrest, candidates_skip, (candidates_at_end _ Hend).
      rewrite cut_skip, (cut_at_end _ _ Hend). simpl.
      rewrite length_app. simpl. rewrite Nat.add_1_r. reflexivity.
    + rewrite Hcnt.
      replace (pre ++ rest) with ((pre ++ replicate n "$"%char ++ tok') ++ r2)
        by (rewrite Hrest, <- !app_assoc; reflexivity).
      replace (length pre + n + length tok')%nat
        with (length (pre ++ replicate n "$"%char ++ tok'))
        by (rewrite !length_app, length_replicate; lia).
      rewrite (IH _ r2 _ _ tok').
      * rewrite Hrest, candidates_skip, (candidates_last _ _ Hp Hne Hend).
        rewrite (candidates_at_end _ Hend).
        rewrite cut_skip, (cut_plain _ _ _ Hp (or_introl Hne)).
        rewrite !(cut_at_end _ _ Hend). simpl length.
        change (1 <? S room)%nat with (0 <? room)%nat.
        rewrite <- !app_assoc. reflexivity.
      * rewrite length_app. simpl. lia.
      * replace ((pre ++ replicate n "$"%char ++ tok') ++ r2)
          with ((pre ++ replicate n "$"%char) ++ tok' ++ r2)
          by (rewrite <- !app_assoc; reflexivity).
        replace (length pre + n)%nat with (length (pre ++ replicate n "$"%char))
          by (rewrite length_app, length_replicate; lia).
        rewrite drop_app_length, (cstr_plain _ _ _ Hp), (cstr_at_end _ Hend).
        apply app_nil_r.
    + rewrite Hcnt.
      replace (pre ++ replicate n "$"%char ++ tok' ++ NUL :: r2)
        with ((pre ++ replicate n "$"%char ++ tok' ++ [NUL]) ++ r2)
        by (rewrite <- !app_assoc; reflexivity).
      replace (S (length pre + n + length tok'))
        with (length (pre ++ replicate n "$"%char ++ tok' ++ [NUL]))
        by (rewrite !length_app, length_replicate; simpl; lia).
      rewrite (IH _ r2 _ _ tok').
      * rewrite Hrest, candidates_skip, (candidates_next _ _ Hp Hne).
        rewrite cut_skip, (cut_plain _ _ _ Hp (or_introl Hne)).
        simpl length. simpl cut.
        change (S (length (candidates r2)) <? S room)%nat
          with (length (candidates r2) <? room)%nat.
        rewrite <- !app_assoc. reflexivity.
      * rewrite length_app. simpl. lia.
      * replace ((pre ++ replicate n "$"%char ++ tok' ++ [NUL]) ++ r2)
          with ((pre ++ replicate n "$"%char) ++ tok' ++ NUL :: r2)
          by (rewrite <- !app_assoc; reflexivity).
        replace (length pre + n)%nat with (length (pre ++ replicate n "$"%char))
          by (rewrite length_app, length_replicate; lia).
        rewrite drop_app_length, (cstr_plain _ _ _ Hp). simpl.
        apply app_nil_r.
Qed.

Lemma dispatch_loop_run cs : forall n i g,
  (i + n = length cs)%nat ->
  dispatch_loop (slots 15 cs) i n g = run (drop i cs) g.
Proof.
  induction n as [|n IH]; intros i g Hin.
  - rewrite drop_ge by lia. reflexivity.
  - cbn [dispatch_loop]. rewrite field_slots.
    destruct (cs !! i) as [c|] eqn:Ec.
    + rewrite (drop_S _ _ _ Ec). cbn [run].
      unfold mbind, res_bind.
      destruct (dispatch g c) as [g'|]; [|reflexivity].
      apply IH. lia.
    + apply lookup_ge_None in Ec. lia.
Qed.

(** The dispatch pass as a whole: it faults on the sixteenth candidate, and
    otherwise dispatches the candidates in order and leaves the buffer cut. *)
Lemma gpsParse_split gps b :
  gpsParse gps b =
    if (length (candidates b) <=? 15)%nat
    then g ← run (candidates b) gps; Ok (g, cut false b)
    else Fault (DataIndexOutOfBounds 15).
Proof.
  unfold gpsParse.
  pose proof (strtok_step [] b (Some 0%nat) 0%nat eq_refl) as Hstep.
  simpl app in Hstep.
  change (replicate 15 None) with (slots 15 []).
  destruct Hstep as [n r1 Hrest Hend|n tok r2 Hrest Hp Hne Hend
                     |n tok r2 Hrest Hp Hne]; subst b.
  - rewrite store_loop_None. unfold mbind at 1, res_bind at 1. cbv beta iota.
    rewrite candidates_skip, (candidates_at_end _ Hend).
    rewrite cut_skip, (cut_at_end _ _ Hend). reflexivity.
  - replace (replicate n "$"%char ++ tok ++ r2)
      with ((replicate n "$"%char ++ tok) ++ r2) at 1
      by (rewrite <- app_assoc; reflexivity).
    replace (length [] + n + length tok)%nat
      with (length (replicate n "$"%char ++ tok))
      by (rewrite length_app, length_replicate; simpl; lia).
    pose proof (store_loop_spec 15 (replicate n "$"%char ++ tok) r2
                  (length (@nil ascii) + n)%nat [] tok eq_refl) as HL.
    cbn [app length Nat.add] in HL |- *. rewrite HL; clear HL.
    + rewrite (candidates_at_end _ Hend). simpl.
      rewrite candidates_skip, (candidates_last _ _ Hp Hne Hend). simpl.
      rewrite cut_skip, (cut_plain _ _ _ Hp (or_introl Hne)).
      rewrite !(cut_at_end _ _ Hend), <- app_assoc.
      unfold mbind, res_bind. destruct (dispatch gps tok); reflexivity.
    + simpl. rewrite <- app_assoc.
      rewrite <- (length_replicate n "$"%char) at 1.
      rewrite drop_app_length, (cstr_plain _ _ _ Hp), (cstr_at_end _ Hend).
      apply app_nil_r.
  - replace ([] ++ replicate n "$"%char ++ tok ++ NUL :: r2)
      with ((replicate n "$"%char ++ tok ++ [NUL]) ++ r2)
      by (simpl; rewrite <- !app_assoc; reflexivity).
    replace (S (length [] + n + length tok))
      with (length (replicate n "$"%char ++ tok ++ [NUL]))
      by (rewrite !length_app, length_replicate; simpl; lia).
    pose proof (store_loop_spec 15 (replicate n "$"%char ++ tok ++ [NUL]) r2
                  (length (@nil ascii) + n)%nat [] tok eq_refl) as HL.
    cbn [app length Nat.add] in HL |- *. rewrite HL; clear HL.
    + rewrite candidates_skip, (candidates_next _ _ Hp Hne).
      simpl app. simpl length.
      change (length (candidates r2) <? 15)%nat
        with (S (length (candidates r2)) <=? 15)%nat.
      destruct (S (length (candidates r2)) <=? 15)%nat eqn:E; [|reflexivity].
      unfold mbind at 1, res_bind at 1. cbv beta iota.
      change (S (length (candidates r2))) with (length (tok :: candidates r2)).
      rewrite (dispatch_loop_run (tok :: candidates r2) _ 0 gps eq_refl).
      simpl drop.
      rewrite cut_skip, (cut_plain _ _ _ Hp (or_introl Hne)). simpl cut.
      rewrite <- !app_assoc. reflexivity.
    + simpl. rewrite <- !app_assoc.
      rewrite <- (length_replicate n "$"%char) at 1.
      rewrite drop_app_length, (cstr_plain _ _ _ Hp). simpl.
      apply app_nil_r.
Qed.

(** ** Decoders as lists of field updates *)

Lemma field_present (fs : list (list ascii)) i :
  (i < length fs)%nat -> exists t, fs !! i = Some t.
Proof. intros H. apply lookup_lt_is_Some_2 in H as [t Ht]. eauto. Qed.

Ltac have_field s i :=
  let t := fresh "f" in
  let E := fresh "E" in
  destruct (field_present (fields s) i ltac:(lia)) as [t E]; rewrite ?E.

Lemma uniform_memcpy dst t off n (k : list ascii -> BN220_GPS -> res (Z * BN220_GPS)) :
  (forall a, uniform (k a)) ->
  uniform (fun g => match memcpy dst t off n with
                    | Ok a => k a g
                    | Fault f => Fault f
                    end).
Proof.
  intros Hk. unfold memcpy.
  destruct (off + n <=? length t + 1)%nat; [apply Hk|].
  right. intros g. reflexivity.
Qed.

Lemma uniform_if (b : bool) (f1 f2 : BN220_GPS -> res (Z * BN220_GPS)) :
  uniform f1 -> uniform f2 -> uniform (fun g => if b then f1 g else f2 g).
Proof. destruct b; auto. Qed.

Lemma uniform_ok rc (X : BN220_GPS -> BN220_GPS) l :
  (forall g, X g = apply_upds l g) -> uniform (fun g => Ok (rc, X g)).
Proof. intros H. left. exists rc, l. intros g. rewrite H. reflexivity. Qed.

Lemma set_hdop_same g : set_hdop (hdop g) g = g.
Proof. destruct g; reflexivity. Qed.

Lemma set_altitude_same g : set_altitude (altitude g) g = g.
Proof. destruct g; reflexivity. Qed.

(** The stores that build the record [t] from [g], oldest first. *)
Ltac upds_of t g acc :=
  lazymatch t with
  | g => acc
  | set_lat ?v ?t' => upds_of t' g constr:(ULat v :: acc)
  | set_NS ?v ?t' => upds_of t' g constr:(UNS v :: acc)
  | set_lon ?v ?t' => upds_of t' g constr:(ULon v :: acc)
  | set_EW ?v ?t' => upds_of t' g constr:(UEW v :: acc)
  | set_altitude ?v ?t' => upds_of t' g constr:(UAlt v :: acc)
  | set_hdop ?v ?t' => upds_of t' g constr:(UHdop v :: acc)
  | set_satelliteCount ?v ?t' => upds_of t' g constr:(USat v :: acc)
  | set_fix ?v ?t' => upds_of t' g constr:(UFix v :: acc)
  | write_time ?f ?t' => upds_of t' g constr:(UTime (take 9 f ++ [NUL]) :: acc)
  | clear_time ?t' => upds_of t' g constr:(UClear :: acc)
  end.

Ltac uniform_leaf :=
  eapply uniform_ok; intros ?g;
  rewrite ?set_altitude_same, ?set_hdop_same;
  lazymatch goal with
  | g : BN220_GPS |- ?t = apply_upds ?l ?g' =>
      let l' := upds_of t g' constr:(@nil upd) in
      unify l l'; reflexivity
  end.

Ltac uniform_body :=
  repeat first
    [ apply uniform_memcpy; intros ?
    | apply uniform_if ].

Lemma nmea_GSV_uniform s : uniform (fun g => nmea_GSV g s).
Proof.
  unfold nmea_GSV. rewrite tokenize_spec.
  apply uniform_if; uniform_leaf.
Qed.

Lemma nmea_GGA_uniform s : uniform (fun g => nmea_GGA g s).
Proof.
  unfold nmea_GGA. rewrite tokenize_spec. cbv beta iota zeta.
  rewrite !field_val_of. unfold mbind.
  destruct (Nat.ltb_spec (length (fields s)) 10) as [Hlt|Hge];
    [uniform_leaf|].
  have_field s 1%nat. have_field s 2%nat. have_field s 3%nat.
  have_field s 4%nat. have_field s 5%nat. have_field s 6%nat.
  have_field s 7%nat. have_field s 8%nat. have_field s 9%nat.
  unfold res_bind. cbv beta iota.
  destruct (9 <=? strlen f)%nat, (f_nonzero (strtof f6)), (f_nonzero (strtof f7));
    uniform_body; uniform_leaf.
Qed.

Lemma nmea_GLL_uniform s : uniform (fun g => nmea_GLL g s).
Proof.
  unfold nmea_GLL. rewrite tokenize_spec. cbv beta iota zeta.
  rewrite !field_val_of, slot_val_of. unfold mbind.
  destruct (Nat.ltb_spec (length (fields s)) 5) as [Hlt|Hge];
    [uniform_leaf|].
  have_field s 1%nat. have_field s 2%nat. have_field s 3%nat.
  have_field s 4%nat.
  unfold res_bind. cbv beta iota.
  destruct (fields s !! 5%nat) as [f5|];
    [destruct (9 <=? strlen f5)%nat|]; uniform_body; uniform_leaf.
Qed.

Lemma count_used_ok fs : forall n i acc,
  (i + n <= length fs)%nat ->
  exists k, count_used (val_of fs) i n acc = Ok k.
Proof.
  induction n as [|n IH]; intros i acc Hin; [simpl; eauto|].
  cbn [count_used]. rewrite field_val_of.
  destruct (field_present fs i ltac:(lia)) as [t ->].
  unfold mbind, res_bind. apply IH. lia.
Qed.

Lemma nmea_GSA_uniform s : uniform (fun g => nmea_GSA g s).
Proof.
  unfold nmea_GSA. rewrite tokenize_spec. cbv beta iota zeta.
  rewrite !field_val_of. unfold mbind.
  destruct (Nat.ltb_spec (length (fields s)) 15) as [Hlt|Hge];
    [uniform_leaf|].
  have_field s 2%nat.
  destruct (count_used_ok (fields s) 12 3 0 ltac:(simpl; lia)) as [k ->].
  unfold res_bind. uniform_leaf.
Qed.

Lemma uniform_call (f : BN220_GPS -> res (Z * BN220_GPS)) :
  uniform f -> uniform_step (fun g => call (f g)).
Proof.
  intros [(rc & l & H)|H]; [left; exists l|right]; intros g;
    unfold call; rewrite H; reflexivity.
Qed.

Lemma dispatch_uniform c : uniform_step (fun g => dispatch g c).
Proof.
  unfold dispatch.
  assert (uniform_step (fun g => Ok g)) as Hid.
  { left. exists []. reflexivity. }
  destruct (strstr c [CR; LF] && negb (getChecksum c =? 0)); [|exact Hid].
  destruct (strstr c (bytes "GLL")); [apply uniform_call, nmea_GLL_uniform|].
  destruct (strstr c (bytes "GSA")); [apply uniform_call, nmea_GSA_uniform|].
  destruct (strstr c (bytes "GGA")); [apply uniform_call, nmea_GGA_uniform|].
  destruct (strstr c (bytes "GSV")); [apply uniform_call, nmea_GSV_uniform|].
  exact Hid.
Qed.

Lemma apply_upds_app l1 l2 g :
  apply_upds (l1 ++ l2) g = apply_upds l2 (apply_upds l1 g).
Proof. revert g. induction l1 as [|u l1 IH]; intros g; simpl; auto. Qed.

Lemma run_uniform cs : uniform_step (run cs).
Proof.
  induction cs as [|c cs IH]; cbn [run].
  - left. exists []. reflexivity.
  - unfold mbind, res_bind.
    destruct (dispatch_uniform c) as [(l1 & H1)|H1].
    + destruct IH as [(l2 & H2)|H2].
      * left. exists (l1 ++ l2). intros g.
        rewrite H1, H2, apply_upds_app. reflexivity.
      * right. intros g. rewrite H1, H2. reflexivity.
    + right. intros g. rewrite H1. reflexivity.
Qed.

(** A field that every store either leaves alone or overwrites is, after
    any sequence of stores, either left alone or overwritten. *)
Lemma keep_or_set {A} (proj : BN220_GPS -> A) :
  (forall u, (forall g, proj (apply_upd u g) = proj g)
             \/ (exists v, forall g, proj (apply_upd u g) = v)) ->
  forall l, (forall g, proj (apply_upds l g) = proj g)
            \/ (exists v, forall g, proj (apply_upds l g) = v).
Proof.
  intros Hu. induction l as [|u l IH]; [left; reflexivity|]. cbn [apply_upds].
  destruct IH as [IH|[v IH]].
  - destruct (Hu u) as [Hk|[v Hv]].
    + left. intros g. rewrite IH. apply Hk.
    + right. exists v. intros g. rewrite IH. apply Hv.
  - right. exists v. intros g. apply IH.
Qed.

Lemma keep_or_set_idem {A} (proj : BN220_GPS -> A) l g :
  (forall u, (forall g, proj (apply_upd u g) = proj g)
             \/ (exists v, forall g, proj (apply_upd u g) = v)) ->
  proj (apply_upds l (apply_upds l g)) = proj (apply_upds l g).
Proof.
  intros Hu. destruct (keep_or_set proj Hu l) as [H|[v H]].
  - apply H.
  - rewrite !H. reflexivity.
Qed.

Ltac field_cases :=
  let u := fresh "u" in
  intros u; destruct u;
  first [ left; intros ?; reflexivity
        | right; eexists; intros ?; cbn; reflexivity ].

(** [lastMeasure] is left alone, cleared or overwritten. *)
Lemma time_shape l :
  (forall g, lastMeasure (apply_upds l g) = lastMeasure g)
  \/ (forall g, lastMeasure (apply_upds l g) = <[0%nat := NUL]> (lastMeasure g))
  \/ (exists v, forall g, lastMeasure (apply_upds l g) = v).
Proof.
  induction l as [|u l IH]; [left; reflexivity|]. cbn [apply_upds].
  assert ((forall g, lastMeasure (apply_upd u g) = lastMeasure g)
          \/ (forall g, lastMeasure (apply_upd u g)
                        = <[0%nat := NUL]> (lastMeasure g))
          \/ (exists v, forall g, lastMeasure (apply_upd u g) = v)) as Hu.
  { destruct u;
      first [ left; intros g; reflexivity
            | right; left; intros g; reflexivity
            | right; right; eexists; intros g; cbn; reflexivity ]. }
  destruct IH as [IH|[IH|[v IH]]].
  - destruct Hu as [Hu|[Hu|[v Hu]]].
    + left. intros g. rewrite IH. apply Hu.
    + right. left. intros g. rewrite IH. apply Hu.
    + right. right. exists v. intros g. rewrite IH. apply Hu.
  - destruct Hu as [Hu|[Hu|[v Hu]]].
    + right. left. intros g. rewrite IH, Hu. reflexivity.
    + right. left. intros g. rewrite IH, Hu. apply list_insert_insert_eq.
    + right. right. exists (<[0%nat := NUL]> v). intros g.
      rewrite IH, Hu. reflexivity.
  - right. right. exists v. intros g. apply IH.
Qed.

Lemma gps_ext g h :
  lat g = lat h -> NS g = NS h -> lon g = lon h -> EW g = EW h ->
  altitude g = altitude h -> hdop g = hdop h ->
  satelliteCount g = satelliteCount h -> fix_ g = fix_ h ->
  lastMeasure g = lastMeasure h -> g = h.
Proof. destruct g, h; simpl; intros; congruence. Qed.

(** Performing the same stores a second time changes nothing. *)
Lemma apply_upds_idem l g : apply_upds l (apply_upds l g) = apply_upds l g.
Proof.
  apply gps_ext; try (apply keep_or_set_idem; field_cases).
  destruct (time_shape l) as [H|[H|[v H]]].
  - apply H.
  - rewrite !H. apply list_insert_insert_eq.
  - rewrite !H. reflexivity.
Qed.

Lemma run_idem cs g g1 : run cs g = Ok g1 -> run cs g1 = Ok g1.
Proof.
  destruct (run_uniform cs) as [(l & H)|H]; rewrite !H; [|discriminate].
  intros [= <-]. rewrite apply_upds_idem. reflexivity.
Qed.

Lemma run_fault cs g f : run cs g = Fault f -> f = ReadPastAllocation.
Proof.
  destruct (run_uniform cs) as [(l & H)|H]; rewrite H; [discriminate|].
  intros [= <-]. reflexivity.
Qed.

Lemma run_app cs1 cs2 g :
  run (cs1 ++ cs2) g = (g1 ← run cs1 g; run cs2 g1).
Proof.
  revert g. induction cs1 as [|c cs1 IH]; intros g; [reflexivity|].
  cbn [run app]. unfold mbind, res_bind.
  destruct (dispatch g c) as [g'|]; [apply IH|reflexivity].
Qed.

Lemma cut_length flag b : length (cut flag b) = length b.
Proof.
  revert flag. induction b as [|c b IH]; intros flag; [reflexivity|]. simpl.
  destruct (is_nul c); [reflexivity|].
  destruct (Ascii.eqb c "$"); simpl; rewrite IH; reflexivity.
Qed.

(** Byte by byte, the pass leaves the buffer as it is or turns a dollar
    into NUL. *)
Lemma cut_pointwise flag b i :
  cut flag b !! i = b !! i
  \/ (b !! i = Some "$"%char /\ cut flag b !! i = Some NUL).
Proof.
  revert flag i. induction b as [|c b IH]; intros flag i; [left; reflexivity|].
  simpl. destruct (is_nul c); [left; reflexivity|].
  destruct (Ascii.eqb c "$") eqn:Ed.
  - apply Ascii.eqb_eq in Ed. subst c. destruct i as [|i]; [|apply IH].
    destruct flag; [right|left]; auto.
  - destruct i as [|i]; [left; reflexivity|apply IH].
Qed.

(** The buffer changes exactly when a dollar ends a candidate. *)
Lemma cut_neq b : forall flag,
  cut flag b <> b <->
  (flag = true /\ exists post, b = "$"%char :: post)
  \/ (exists pre c post,
        b = pre ++ c :: "$"%char :: post /\ c <> "$"%char /\ NUL ∉ pre ++ [c]).
Proof.
  induction b as [|c0 b0 IH]; intros flag.
  - simpl. split; [congruence|].
    intros [(_ & post & H)|(pre & c & post & H & _)]; [discriminate H|].
    destruct pre; discriminate H.
  - cbn [cut]. destruct (is_nul c0) eqn:En.
    { apply is_nul_true in En. subst c0. split; [congruence|].
      intros [(_ & post & H)|(pre & c & post & H & _ & Hn)];
        [discriminate H|].
      exfalso. apply Hn. destruct pre as [|p pre]; injection H as <- _.
      - left.
      - left. }
    apply is_nul_false in En.
    destruct (Ascii.eqb c0 "$") eqn:Ed.
    + apply Ascii.eqb_eq in Ed. subst c0. split.
      * intros Hneq. destruct flag; [left; eauto|]. right.
        assert (cut false b0 <> b0) as Hb by congruence.
        apply IH in Hb as [(Hf & _)|(pre & c & post & -> & Hc & Hn)];
          [discriminate Hf|].
        exists ("$"%char :: pre), c, post. repeat split; [assumption|].
        simpl. apply not_elem_of_cons. split; [discriminate|exact Hn].
      * intros [(-> & _)|(pre & c & post & H & Hc & Hn)]; [discriminate|].
        destruct pre as [|p pre]; injection H as H1 H2; [congruence|].
        subst p b0.
        assert (cut false (pre ++ c :: "$"%char :: post)
                <> pre ++ c :: "$"%char :: post) as Hb.
        { apply IH. right. exists pre, c, post. repeat split; [assumption|].
          simpl in Hn. apply not_elem_of_cons in Hn as [_ Hn]. exact Hn. }
        congruence.
    + apply Ascii.eqb_neq in Ed. split.
      * intros Hneq. right.
        assert (cut true b0 <> b0) as Hb by congruence.
        apply IH in Hb as [(_ & post & ->)|(pre & c & post & -> & Hc & Hn)].
        -- exists [], c0, post. repeat split; [assumption|].
           simpl. apply not_elem_of_cons. split; [congruence|apply not_elem_of_nil].
        -- exists (c0 :: pre), c, post. repeat split; [assumption|].
           simpl. apply not_elem_of_cons. split; [congruence|exact Hn].
      * intros [(_ & post & H)|(pre & c & post & H & Hc & Hn)];
          [congruence|].
        assert (cut true b0 <> b0) as Hb; [|congruence].
        apply IH. destruct pre as [|p pre]; injection H as H1 H2.
        -- left. eauto.
        -- right. exists pre, c, post. repeat split; try assumption.
           simpl in Hn. apply not_elem_of_cons in Hn as [_ Hn]. exact Hn.
Qed.

(** ** The dispatch pass *)

(** C9.  [gpsParse] stores the candidates in [data] without testing the
    index: with at most fifteen candidates no store leaves the array, and
    with more than fifteen the sixteenth store, to [data[15]], is out of
    bounds, whatever the record and whatever the sentences are. *)
Theorem gpsParse_data_bounds gps b :
  ((length (candidates b) <= 15)%nat ->
     forall i, gpsParse gps b <> Fault (DataIndexOutOfBounds i))
  /\ ((15 < length (candidates b))%nat ->
      gpsParse gps b = Fault (DataIndexOutOfBounds 15)).
Proof.
  rewrite gpsParse_split. split; intros Hlen.
  - destruct (Nat.leb_spec (length (candidates b)) 15); [|lia].
    intros i. unfold mbind, res_bind.
    destruct (run (candidates b) gps) as [g|f] eqn:E; [discriminate|].
    apply run_fault in E. subst f. discriminate.
  - destruct (Nat.leb_spec (length (candidates b)) 15); [lia|reflexivity].
Qed.

Lemma gpsParse_data_bounds_witness :
  gpsParse gps_prev buf_sixteen = Fault (DataIndexOutOfBounds 15)
  /\ gpsParse gps_prev buf_mixed <> Fault (DataIndexOutOfBounds 15).
Proof.
  split.
  - apply (proj2 (gpsParse_data_bounds gps_prev buf_sixteen)).
    vm_compute. lia.
  - apply (proj1 (gpsParse_data_bounds gps_prev buf_mixed)).
    vm_compute. lia.
Defined.

(** C10, as stated, fails: a buffer holding one sentence contains a dollar
    and is left exactly as it was. *)
Lemma gpsParse_single_sentence_untouched :
  ~ (forall gps b g b',
       "$"%char ∈ b -> gpsParse gps b = Ok (g, b') -> b' <> b).
Proof.
  intros H.
  apply (H gps_prev buf_single gps_prev buf_single).
  - left.
  - vm_compute. reflexivity.
  - reflexivity.
Qed.

Lemma cut_lookup_0 flag b :
  cut flag b !! 0%nat =
    if flag && bool_decide (b !! 0%nat = Some "$"%char)
    then Some NUL else b !! 0%nat.
Proof.
  destruct b as [|c b]; [destruct flag; reflexivity|].
  cbn [cut]. destruct (is_nul c) eqn:En.
  { apply is_nul_true in En. subst c.
    rewrite bool_decide_eq_false_2 by discriminate.
    rewrite andb_false_r. reflexivity. }
  destruct (Ascii.eqb_spec c "$") as [->|Hc].
  - rewrite bool_decide_eq_true_2 by reflexivity.
    destruct flag; reflexivity.
  - rewrite bool_decide_eq_false_2 by (cbn; congruence).
    rewrite andb_false_r. reflexivity.
Qed.

Lemma ends_candidate_nul c b j :
  is_nul c = true -> ends_candidate (c :: b) (S j) = false.
Proof.
  intros En. apply is_nul_true in En. subst c. unfold ends_candidate.
  rewrite (bool_decide_eq_false_2 (NUL ∉ _)); [apply andb_false_r|].
  intros H. apply H. cbn [take]. left.
Qed.

Lemma ends_candidate_cons c b j :
  is_nul c = false ->
  ends_candidate (c :: b) (S (S j)) = ends_candidate b (S j).
Proof.
  intros En. apply is_nul_false in En. unfold ends_candidate.
  change ((c :: b) !! S (S j)) with (b !! S j).
  change ((c :: b) !! S j) with (b !! j).
  f_equal. apply bool_decide_ext.
  change (take (S (S j)) (c :: b)) with (c :: take (S j) b).
  rewrite not_elem_of_cons. split; [intros [_ H]; exact H|].
  intros H. split; [congruence|exact H].
Qed.

Lemma ends_candidate_1 c b :
  is_nul c = false ->
  ends_candidate (c :: b) 1 =
    negb (Ascii.eqb c "$") && bool_decide (b !! 0%nat = Some "$"%char).
Proof.
  intros En. apply is_nul_false in En. unfold ends_candidate.
  change ((c :: b) !! 1%nat) with (b !! 0%nat).
  change ((c :: b) !! 0%nat) with (Some c).
  rewrite (bool_decide_eq_true_2 (NUL ∉ _)).
  2:{ cbn [take]. rewrite not_elem_of_cons. split; [congruence|].
      apply not_elem_of_nil. }
  rewrite andb_true_r.
  destruct (Ascii.eqb_spec c "$") as [->|Hc].
  - rewrite (bool_decide_eq_true_2 (Some _ = _)) by reflexivity.
    apply andb_false_r.
  - rewrite (bool_decide_eq_false_2 (Some c = _)) by congruence.
    rewrite andb_true_r. reflexivity.
Qed.

(** The pass byte by byte: a dollar that ends a candidate becomes NUL,
    every other byte stays. *)
Lemma cut_lookup b : forall flag j,
  cut flag b !! S j =
    if ends_candidate b (S j) then Some NUL else b !! S j.
Proof.
  induction b as [|c b IH]; intros flag j.
  { unfold ends_candidate. cbn [cut].
    rewrite bool_decide_eq_false_2 by discriminate. reflexivity. }
  cbn [cut]. destruct (is_nul c) eqn:En.
  { rewrite (ends_candidate_nul _ _ _ En). reflexivity. }
  assert (forall x flag',
            flag' = negb (Ascii.eqb c "$") ->
            (x :: cut flag' b) !! S j =
              if ends_candidate (c :: b) (S j) then Some NUL
              else (c :: b) !! S j) as Hgo.
  { intros x flag' ->. change ((x :: ?l) !! S j) with (l !! j).
    destruct j as [|j].
    - rewrite cut_lookup_0, (ends_candidate_1 _ _ En). reflexivity.
    - rewrite IH, (ends_candidate_cons _ _ _ En). reflexivity. }
  destruct (Ascii.eqb c "$") eqn:Ed; apply Hgo; reflexivity.
Qed.

Lemma cut_false_lookup b i :
  cut false b !! i = if ends_candidate b i then Some NUL else b !! i.
Proof.
  destruct i as [|j]; [|apply cut_lookup].
  rewrite cut_lookup_0. reflexivity.
Qed.

(** C10, amended.  A dispatch pass that returns leaves the buffer with its
    length and with each byte as before, but for the dollars that end a
    candidate, each of which is turned into NUL: these are the dollars
    that, before the terminator, directly follow a byte that is not a
    dollar.  Leading dollars, and dollars that follow a dollar, are skipped
    and stay.  The contents thus differ from those before the pass exactly
    when some dollar ends a candidate. *)
Theorem gpsParse_buffer gps b g b' :
  gpsParse gps b = Ok (g, b') ->
  b' = cut false b
  /\ length b' = length b
  /\ (forall i, b' !! i = if ends_candidate b i then Some NUL else b !! i)
  /\ (forall i, b' !! i = b !! i
                \/ (b !! i = Some "$"%char /\ b' !! i = Some NUL))
  /\ (b' <> b <->
      exists pre c post,
        b = pre ++ c :: "$"%char :: post /\ c <> "$"%char /\ NUL ∉ pre ++ [c]).
Proof.
  rewrite gpsParse_split.
  destruct (length (candidates b) <=? 15)%nat; [|discriminate].
  unfold mbind, res_bind.
  destruct (run (candidates b) gps) as [g1|]; [|discriminate].
  intros [= <- <-]. split; [reflexivity|]. split; [apply cut_length|].
  split; [intros i; apply cut_false_lookup|].
  split; [intros i; apply cut_pointwise|].
  rewrite cut_neq. split.
  - intros [(Hf & _)|H]; [discriminate Hf|exact H].
  - intros H. right. exact H.
Qed.

Lemma gpsParse_buffer_witness :
  (exists g b',
     gpsParse gps_prev buf_gga_gsa = Ok (g, b')
     /\ length b' = length buf_gga_gsa /\ b' <> buf_gga_gsa)
  /\ gpsParse gps_prev buf_dollars =
       Ok (gps_prev, bytes "$$a" ++ NUL :: bytes "b" ++ NUL :: bytes "$c").
Proof.
  split.
  - destruct (gpsParse gps_prev buf_gga_gsa) as [[g b']|] eqn:E;
      [|vm_compute in E; discriminate E].
    exists g, b'. split; [reflexivity|].
    destruct (gpsParse_buffer gps_prev buf_gga_gsa g b' E)
      as (_ & Hl & _ & _ & Hd).
    split; [exact Hl|]. apply Hd.
    exists (bytes "$" ++ bytes "GPGGA,092725.00,4717.11364,N,00833.91565,E,1,08,1.01,499.6,M,48.0,M,,*53" ++ [CR]),
      LF, gsa_five.
    split; [reflexivity|]. split; [discriminate|].
    apply (bool_decide_unpack _). vm_compute. exact I.
  - destruct (gpsParse gps_prev buf_dollars) as [[g b']|] eqn:E;
      [|vm_compute in E; discriminate E].
    destruct (gpsParse_buffer gps_prev buf_dollars g b' E) as (Hb & _).
    rewrite Hb. vm_compute in E. injection E as <- _. reflexivity.
Defined.

(** The two passes over [buf_gga_gsa], the second on the buffer as the first
    left it: the first pass ends with the five satellites of the GSA line,
    the second sees the GGA line only and puts its eight back. *)
Lemma gpsParse_in_place_runs :
  exists g1 b1 g2,
    gpsParse gps_prev buf_gga_gsa = Ok (g1, b1)
    /\ gpsParse g1 b1 = Ok (g2, b1)
    /\ candidates b1 = [gga_fix]
    /\ satelliteCount g1 = 5 /\ satelliteCount g2 = 8.
Proof.
  destruct (gpsParse gps_prev buf_gga_gsa) as [[g1 b1]|] eqn:E1;
    [|vm_compute in E1; discriminate E1].
  vm_compute in E1. injection E1 as <- <-.
  eexists _, _, _. split; [reflexivity|].
  split; [vm_compute; reflexivity|].
  split; [vm_compute; reflexivity|].
  split; reflexivity.
Qed.

(** C3, as stated, fails: the pass overwrites separators in the buffer, so
    a second pass over the same buffer sees its first candidate only. *)
Lemma gpsParse_twice_in_place_differs :
  ~ (forall gps b g1 b1 g2 b2,
       gpsParse gps b = Ok (g1, b1) -> gpsParse g1 b1 = Ok (g2, b2) ->
       g2 = g1).
Proof.
  intros H.
  destruct gpsParse_in_place_runs as (g1 & b1 & g2 & E1 & E2 & _ & S1 & S2).
  specialize (H _ _ _ _ _ _ E1 E2). subst g2. rewrite S1 in S2. discriminate.
Qed.

(** C3, amended.  A second dispatch pass over a buffer holding the bytes
    the first pass was given (the buffer refilled, not the one the first
    pass cut) returns the record of the first pass unchanged, and cuts the
    buffer the same way; this for every buffer on which the first pass
    returns and every initial record. *)
Theorem gpsParse_idempotent gps b g1 b1 :
  gpsParse gps b = Ok (g1, b1) -> gpsParse g1 b = Ok (g1, b1).
Proof.
  rewrite !gpsParse_split.
  destruct (length (candidates b) <=? 15)%nat; [|discriminate].
  unfold mbind, res_bind.
  destruct (run (candidates b) gps) as [g|] eqn:E; [|discriminate].
  intros [= <- <-]. rewrite (run_idem _ _ _ E). reflexivity.
Qed.

Lemma gpsParse_idempotent_witness :
  exists g1 b1,
    gpsParse gps_prev buf_gga_gsa = Ok (g1, b1)
    /\ gpsParse g1 buf_gga_gsa = Ok (g1, b1).
Proof.
  destruct (gpsParse gps_prev buf_gga_gsa) as [[g1 b1]|] eqn:E;
    [|vm_compute in E; discriminate E].
  exists g1, b1. split; [reflexivity|].
  exact (gpsParse_idempotent gps_prev buf_gga_gsa g1 b1 E).
Defined.





(** A latitude field whose minutes read as NaN passes both range tests of
    [nmea_GGA], each comparison with a NaN being false: the sentence is
    accepted and the record holds a NaN latitude. *)
Example nmea_GGA_accepts_nan_latitude :
  exists g,
    nmea_GGA gps_prev
      (line "GPGGA,092725.00,47nan00,N,00833.91565,E,1,08,1.01,499.6,M,48.0,M,,*48")
      = Ok (1, g)
    /\ lat g = S754_nan.
Proof. eexists. vm_compute. split; reflexivity. Qed.

(** * Further properties of the code *)

(** ** The tokenizer *)

Lemma split_on_length d s : length (split_on d s) = S (count_char d s).
Proof.
  induction s as [|c s IH]; [reflexivity|]. cbn [split_on count_char].
  destruct (Ascii.eqb c d); simpl.
  - rewrite IH. reflexivity.
  - destruct (split_on d s) as [|t ts]; simpl in *; lia.
Qed.

Lemma join_split_on d s : join d (split_on d s) = s.
Proof.
  induction s as [|c s IH]; [reflexivity|]. cbn [split_on].
  destruct (Ascii.eqb c d) eqn:E.
  - apply Ascii.eqb_eq in E. subst c.
    destruct (split_on d s) as [|t ts] eqn:Es;
      [destruct (split_on_nonnil _ _ Es)|].
    change (join d ([] :: t :: ts)) with (d :: join d (t :: ts)).
    rewrite IH. reflexivity.
  - destruct (split_on d s) as [|t ts] eqn:Es;
      [destruct (split_on_nonnil _ _ Es)|].
    destruct ts; cbn [join] in *; rewrite <- IH; reflexivity.
Qed.

Lemma split_on_no_delim d s t : t ∈ split_on d s -> d ∉ t.
Proof.
  revert t. induction s as [|c s IH]; cbn [split_on]; intros t Hin.
  - apply list_elem_of_singleton in Hin. subst t. apply not_elem_of_nil.
  - destruct (Ascii.eqb c d) eqn:E.
    + apply elem_of_cons in Hin as [->|Hin]; [apply not_elem_of_nil|auto].
    + apply Ascii.eqb_neq in E.
      destruct (split_on d s) as [|t0 ts] eqn:Es.
      * apply list_elem_of_singleton in Hin. subst t.
        apply not_elem_of_cons. split; [congruence|apply not_elem_of_nil].
      * apply elem_of_cons in Hin as [->|Hin].
        -- apply not_elem_of_cons. split; [congruence|]. apply IH. left.
        -- apply IH. right. exact Hin.
Qed.

Lemma fields_count s :
  length (fields s) = Nat.min 25 (S (count_char "," (cstr s))).
Proof. unfold fields. rewrite length_take, split_on_length. reflexivity. Qed.

(** X1.  The tokenizer keeps every field, empty ones included: it yields
    one token more than the sentence has commas, up to the cap of 25; the
    tokens hold neither a comma nor a NUL; and, below the cap, joining them
    with commas gives the sentence back. *)
Theorem tokenize_fields (s : list ascii) :
  snd (tokenize s) = Nat.min 25 (S (count_char "," (cstr s)))
  /\ (forall i, slot (fst (tokenize s)) i = fields s !! i)
  /\ (forall i, (i < snd (tokenize s))%nat <-> is_Some (slot (fst (tokenize s)) i))
  /\ (forall t, t ∈ fields s -> (","%char ∉ t) /\ (NUL ∉ t))
  /\ ((count_char "," (cstr s) < 25)%nat -> join "," (fields s) = cstr s).
Proof.
  rewrite tokenize_spec. cbn [fst snd].
  split; [apply fields_count|].
  split; [intros i; apply slot_val_of|].
  split.
  { intros i. rewrite slot_val_of. symmetry. apply lookup_lt_is_Some. }
  split.
  { intros t Hin. split; [|eapply fields_no_nul; exact Hin].
    unfold fields in Hin. apply subseteq_take in Hin.
    eapply split_on_no_delim, Hin. }
  intros Hc. unfold fields.
  rewrite take_ge by (rewrite split_on_length; lia).
  apply join_split_on.
Qed.

Lemma tokenize_fields_witness :
  snd (tokenize (bytes "GPGGA,,,,")) = 5%nat
  /\ slot (fst (tokenize (bytes "GPGGA,,,,"))) 4 = Some []
  /\ join "," (fields (bytes "GPGGA,,,,")) = bytes "GPGGA,,,,".
Proof.
  destruct (tokenize_fields (bytes "GPGGA,,,,")) as (Hn & Hs & _ & _ & Hj).
  split; [rewrite Hn; reflexivity|].
  split; [rewrite Hs; reflexivity|].
  apply Hj. vm_compute. lia.
Defined.

(** ** [nmea_GSA] and [nmea_GSV] *)

Lemma count_used_spec fs :
  Forall (fun t => NUL ∉ t) fs ->
  forall n i acc,
    (i + n <= length fs)%nat ->
    count_used (val_of fs) i n acc =
      Ok (acc + Z.of_nat (length (filter (fun t => nonempty t = true)
                                         (take n (drop i fs))))).
Proof.
  intros Hnul. induction n as [|n IH]; intros i acc Hin.
  - simpl. rewrite Z.add_0_r. reflexivity.
  - cbn [count_used]. rewrite field_val_of.
    destruct (field_present fs i ltac:(lia)) as [t Ht]. rewrite Ht.
    unfold mbind, res_bind. rewrite IH by lia.
    rewrite (drop_S _ _ _ Ht). cbn [take].
    assert (NUL ∉ t) as Hn.
    { eapply (proj1 (Forall_forall _ _) Hnul), list_elem_of_lookup_2, Ht. }
    destruct t as [|c t].
    + rewrite filter_cons_False by (simpl; discriminate). reflexivity.
    + rewrite filter_cons_True by reflexivity.
      apply not_elem_of_cons in Hn as [Hc _].
      unfold char_at. simpl lookup. simpl default.
      destruct (is_nul c) eqn:E; [apply is_nul_true in E; congruence|].
      f_equal. simpl length. lia.
Qed.

Lemma fields_Forall_no_nul s : Forall (fun t => NUL ∉ t) (fields s).
Proof. apply Forall_forall. apply fields_no_nul. Qed.

Lemma prn_used_range fs : 0 <= prn_used fs <= 12.
Proof.
  unfold prn_used.
  pose proof (length_filter (fun t => nonempty t = true) (take 12 (drop 3 fs))).
  rewrite length_take in H. lia.
Qed.

(** X2.  [nmea_GSA] never reads out of bounds.  On fewer than 15 fields it
    returns 0 and leaves the record as it is.  Otherwise it returns 1, sets
    the fix flag to 1 when field 2 reads as an integer above 1 and to 0
    otherwise, sets the satellite count to the number of non-empty fields
    among fields 3 to 14, a number from 0 to 12, and changes nothing else. *)
Theorem nmea_GSA_spec gps s :
  ((length (fields s) < 15)%nat -> nmea_GSA gps s = Ok (0, gps))
  /\ ((15 <= length (fields s))%nat ->
      exists f2,
        fields s !! 2%nat = Some f2
        /\ nmea_GSA gps s =
             Ok (1, mkGPS (lat gps) (NS gps) (lon gps) (EW gps)
                          (altitude gps) (hdop gps)
                          (prn_used (fields s))
                          (if 1 <? strtol f2 10 then 1 else 0)
                          (lastMeasure gps))
        /\ 0 <= prn_used (fields s) <= 12).
Proof.
  unfold nmea_GSA. rewrite tokenize_spec. cbv beta iota zeta.
  rewrite !field_val_of. unfold mbind.
  split; intros Hlen.
  - destruct (Nat.ltb_spec (length (fields s)) 15); [reflexivity|lia].
  - destruct (Nat.ltb_spec (length (fields s)) 15); [lia|].
    destruct (field_present (fields s) 2 ltac:(lia)) as [f2 E2].
    exists f2. split; [exact E2|]. split; [|apply prn_used_range].
    rewrite E2. unfold res_bind at 1. cbv beta iota.
    rewrite (count_used_spec _ (fields_Forall_no_nul s)) by (simpl; lia).
    reflexivity.
Qed.

Lemma nmea_GSA_spec_witness :
  nmea_GSA gps_prev gsa_five =
    Ok (1, set_satelliteCount 5 (set_fix 1 gps_prev))
  /\ nmea_GSA gps_prev gll_fix = Ok (0, gps_prev).
Proof.
  split.
  - destruct (proj2 (nmea_GSA_spec gps_prev gsa_five))
      as (f2 & E2 & Hrun & _); [vm_compute; lia|].
    vm_compute in E2. injection E2 as <-. rewrite Hrun. vm_compute.
    reflexivity.
  - apply (proj1 (nmea_GSA_spec gps_prev gll_fix)). vm_compute. lia.
Defined.

Lemma count_char_zero d s : count_char d s = 0%nat <-> d ∉ s.
Proof.
  induction s as [|c s IH]; cbn [count_char].
  - split; [intros _; apply not_elem_of_nil|reflexivity].
  - destruct (Ascii.eqb c d) eqn:E.
    + apply Ascii.eqb_eq in E. subst c. split; [lia|].
      intros H. exfalso. apply H. left.
    + apply Ascii.eqb_neq in E. simpl. rewrite IH. split.
      * intros H. apply not_elem_of_cons. split; [congruence|exact H].
      * intros H. apply not_elem_of_cons in H as [_ H]. exact H.
Qed.

(** X3.  [nmea_GSV] never changes the record and never reads out of bounds;
    it returns 1 exactly when the sentence holds a comma, that is at least
    two fields. *)
Theorem nmea_GSV_spec gps s :
  (","%char ∈ cstr s -> nmea_GSV gps s = Ok (1, gps))
  /\ (","%char ∉ cstr s -> nmea_GSV gps s = Ok (0, gps)).
Proof.
  unfold nmea_GSV. rewrite tokenize_spec, fields_count.
  split; intros H.
  - destruct (count_char "," (cstr s)) as [|n] eqn:E.
    + apply count_char_zero in E. contradiction.
    + destruct (Nat.ltb_spec (Nat.min 25 (S (S n))) 2); [lia|reflexivity].
  - apply count_char_zero in H. rewrite H. reflexivity.
Qed.

Lemma nmea_GSV_spec_witness :
  nmea_GSV gps_prev gsv_line = Ok (1, gps_prev)
  /\ nmea_GSV gps_prev (bytes "GPGSV") = Ok (0, gps_prev).
Proof.
  split.
  - apply (proj1 (nmea_GSV_spec gps_prev gsv_line)).
    apply (bool_decide_unpack _). vm_compute. exact I.
  - apply (proj2 (nmea_GSV_spec gps_prev (bytes "GPGSV"))).
    apply (bool_decide_unpack _). vm_compute. exact I.
Defined.

(** ** [nmea_GLL] and [nmea_GGA], case by case *)

Lemma memcpy_ok k t off n :
  NUL ∉ t -> (0 < n < k)%nat -> (off + n <= length t + 1)%nat ->
  exists x, memcpy (replicate k NUL) t off n = Ok x
            /\ cstr x = take n (drop off t).
Proof.
  intros Hn Hk Hle.
  destruct (memcpy (replicate k NUL) t off n) as [x|f] eqn:E.
  - exists x. split; [reflexivity|]. eapply memcpy_cstr; eassumption.
  - unfold memcpy in E.
    destruct (Nat.leb_spec (off + n) (length t + 1)); [discriminate|lia].
Qed.

Lemma memcpy_fail dst t off n :
  (length t + 1 < off + n)%nat -> memcpy dst t off n = Fault ReadPastAllocation.
Proof.
  intros H. unfold memcpy.
  destruct (Nat.leb_spec (off + n) (length t + 1)); [lia|reflexivity].
Qed.

Lemma field_no_nul s i t : fields s !! i = Some t -> NUL ∉ t.
Proof. intros E. eapply fields_no_nul, list_elem_of_lookup_2, E. Qed.

(** [nmea_GLL] on a sentence of at least five fields, as a function of the
    fields. *)
Lemma nmea_GLL_cases gps s f1 f2 f3 f4 :
  (5 <= length (fields s))%nat ->
  fields s !! 1%nat = Some f1 -> fields s !! 2%nat = Some f2 ->
  fields s !! 3%nat = Some f3 -> fields s !! 4%nat = Some f4 ->
  nmea_GLL gps s =
    if is_NS (char_at f2 0) then
      if (7 <=? length f1)%nat && (9 <=? length f3)%nat then
        let lat_d_t := strtol (take 2 f1) 10 in
        let lat_m_t := strtof (take 6 (drop 2 f1)) in
        let lon_d_t := strtol (take 3 f3) 10 in
        let lon_m_t := strtof (take 7 (drop 3 f3)) in
        if (lat_d_t =? 0) || f_eqb lat_m_t zero
           || (lon_d_t =? 0) || f_eqb lon_m_t zero
        then Ok (0, gps)
        else Ok (1, mkGPS (deg_double lat_d_t lat_m_t) (char_at f2 0)
                          (deg_double lon_d_t lon_m_t) (char_at f4 0)
                          (altitude gps) (hdop gps) (satelliteCount gps)
                          (fix_ gps)
                          (time_of (fields s !! 5%nat) (lastMeasure gps)))
      else Fault ReadPastAllocation
    else Ok (0, gps).
Proof.
  intros Hlen E1 E2 E3 E4.
  pose proof (field_no_nul _ _ _ E1) as N1.
  pose proof (field_no_nul _ _ _ E3) as N3.
  unfold nmea_GLL. rewrite tokenize_spec. cbv beta iota zeta.
  rewrite !field_val_of, slot_val_of, E1, E2, E3, E4. unfold mbind.
  destruct (Nat.ltb_spec (length (fields s)) 5); [lia|].
  unfold res_bind at 1. cbv beta iota.
  destruct (is_NS (char_at f2 0)); [|reflexivity].
  unfold res_bind at 1. cbv beta iota.
  destruct (Nat.leb_spec 7 (length f1)) as [H1|H1].
  - destruct (memcpy_ok 3 f1 0 2 N1 ltac:(lia) ltac:(lia)) as (a & -> & Ha).
    destruct (memcpy_ok 8 f1 2 6 N1 ltac:(lia) ltac:(lia)) as (a0 & -> & Ha0).
    unfold res_bind at 1 2 3 4. cbv beta iota.
    destruct (Nat.leb_spec 9 (length f3)) as [H3|H3].
    + destruct (memcpy_ok 4 f3 0 3 N3 ltac:(lia) ltac:(lia)) as (a1 & -> & Ha1).
      destruct (memcpy_ok 8 f3 3 7 N3 ltac:(lia) ltac:(lia)) as (a2 & -> & Ha2).
      unfold res_bind. cbv beta iota.
      rewrite drop_0 in Ha, Ha1.
      rewrite (strtol_cstr a), (strtof_cstr a0), (strtol_cstr a1),
        (strtof_cstr a2), Ha, Ha0, Ha1, Ha2.
      cbn [andb]. cbv zeta.
      match goal with |- context [if ?b then Ok (0, gps) else _] => destruct b end;
        [reflexivity|].
      unfold time_of.
      destruct (fields s !! 5%nat) as [f5|] eqn:E5; [|reflexivity].
      rewrite (strlen_field _ _ _ E5).
      destruct (9 <=? length f5)%nat; reflexivity.
    + cbn [andb].
      assert (memcpy (replicate 8 NUL) f3 3 7 = Fault ReadPastAllocation) as Hf
        by (apply memcpy_fail; lia).
      destruct (memcpy (replicate 4 NUL) f3 0 3) as [a1|f] eqn:Em.
      * unfold res_bind. rewrite Hf. reflexivity.
      * unfold memcpy in Em.
        destruct (0 + 3 <=? length f3 + 1)%nat; [discriminate|].
        injection Em as <-. reflexivity.
  - cbn [andb].
    assert (memcpy (replicate 8 NUL) f1 2 6 = Fault ReadPastAllocation) as Hf
      by (apply memcpy_fail; lia).
    destruct (memcpy (replicate 3 NUL) f1 0 2) as [a|f] eqn:Em.
    + unfold res_bind. rewrite Hf. reflexivity.
    + unfold memcpy in Em.
      destruct (0 + 2 <=? length f1 + 1)%nat; [discriminate|].
      injection Em as <-. reflexivity.
Qed.

Lemma nmea_GLL_short gps s :
  (length (fields s) < 5)%nat -> nmea_GLL gps s = Ok (0, gps).
Proof.
  intros H. unfold nmea_GLL. rewrite tokenize_spec.
  destruct (Nat.ltb_spec (length (fields s)) 5); [reflexivity|lia].
Qed.

Lemma is_NS_true c : is_NS c = true -> c = "N"%char \/ c = "S"%char.
Proof.
  unfold is_NS. intros H. apply orb_true_iff in H as [H|H];
    apply Ascii.eqb_eq in H; auto.
Qed.

Lemma is_EW_true c : is_EW c = true -> c = "E"%char \/ c = "W"%char.
Proof.
  unfold is_EW. intros H. apply orb_true_iff in H as [H|H];
    apply Ascii.eqb_eq in H; auto.
Qed.

Ltac four_fields s Hlen f1 f2 f3 f4 E1 E2 E3 E4 :=
  destruct (field_present (fields s) 1 ltac:(lia)) as [f1 E1];
  destruct (field_present (fields s) 2 ltac:(lia)) as [f2 E2];
  destruct (field_present (fields s) 3 ltac:(lia)) as [f3 E3];
  destruct (field_present (fields s) 4 ltac:(lia)) as [f4 E4].

(** X4.  Whatever [nmea_GLL] returns, it is 0 or 1.  With 0 the record is
    exactly as before: every test comes before the first store.  With 1 the
    hemisphere fields hold the first characters of fields 2 and 4, the
    former being N or S, and altitude, dilution, satellite count and fix
    flag are as before. *)
Theorem nmea_GLL_frame gps s rc g' :
  nmea_GLL gps s = Ok (rc, g') ->
  (rc = 0 /\ g' = gps)
  \/ (rc = 1 /\
      exists f2 f4,
        fields s !! 2%nat = Some f2 /\ fields s !! 4%nat = Some f4
        /\ NS g' = char_at f2 0 /\ (NS g' = "N"%char \/ NS g' = "S"%char)
        /\ EW g' = char_at f4 0
        /\ altitude g' = altitude gps /\ hdop g' = hdop gps
        /\ satelliteCount g' = satelliteCount gps /\ fix_ g' = fix_ gps).
Proof.
  destruct (Nat.ltb_spec (length (fields s)) 5) as [Hlt|Hge].
  { rewrite (nmea_GLL_short _ _ Hlt). intros H.
    apply Ok_pair_inj in H as [<- <-]. left. auto. }
  four_fields s Hge f1 f2 f3 f4 E1 E2 E3 E4.
  rewrite (nmea_GLL_cases gps s f1 f2 f3 f4 Hge E1 E2 E3 E4).
  destruct (is_NS (char_at f2 0)) eqn:Ens.
  - destruct ((7 <=? length f1)%nat && (9 <=? length f3)%nat); [|discriminate].
    cbv zeta.
    match goal with |- context [if ?b then Ok (0, gps) else _] => destruct b end;
      intros H; apply Ok_pair_inj in H as [<- <-]; [left; auto|].
    right. split; [reflexivity|]. exists f2, f4. cbn.
    repeat split; try assumption. apply is_NS_true, Ens.
  - intros H. apply Ok_pair_inj in H as [<- <-]. left. auto.
Qed.

Lemma nmea_GLL_frame_witness :
  exists g',
    nmea_GLL gps_prev gll_bad_ew = Ok (1, g')
    /\ NS g' = "N"%char /\ EW g' = "X"%char /\ fix_ g' = fix_ gps_prev.
Proof.
  destruct (nmea_GLL gps_prev gll_bad_ew) as [[rc g']|] eqn:E;
    [|vm_compute in E; discriminate E].
  assert (rc = 1) as -> by (vm_compute in E; congruence).
  exists g'. split; [reflexivity|].
  destruct (nmea_GLL_frame gps_prev gll_bad_ew 1 g' E)
    as [(H0 & _)|(_ & f2 & f4 & E2 & E4 & Hns & _ & Hew & _ & _ & _ & Hfix)];
    [discriminate H0|].
  vm_compute in E2, E4. injection E2 as <-. injection E4 as <-.
  repeat split; assumption.
Defined.

(** X5.  On a sentence with fields long enough to be read, [nmea_GLL]
    refuses every position whose whole degrees of latitude or of longitude
    read as 0, and every position whose minutes read as zero: it returns 0
    and leaves the record as it is.  Latitudes below one degree and
    longitudes below one degree are thus never stored by this decoder. *)
Theorem nmea_GLL_zero_sentinel gps s f1 f3 :
  (5 <= length (fields s))%nat ->
  fields s !! 1%nat = Some f1 -> fields s !! 3%nat = Some f3 ->
  (7 <= length f1)%nat -> (9 <= length f3)%nat ->
  strtol (take 2 f1) 10 = 0 \/ f_eqb (strtof (take 6 (drop 2 f1))) zero = true
  \/ strtol (take 3 f3) 10 = 0 \/ f_eqb (strtof (take 7 (drop 3 f3))) zero = true ->
  nmea_GLL gps s = Ok (0, gps).
Proof.
  intros Hlen E1 E3 H1 H3 Hz.
  destruct (field_present (fields s) 2 ltac:(lia)) as [f2 E2].
  destruct (field_present (fields s) 4 ltac:(lia)) as [f4 E4].
  rewrite (nmea_GLL_cases gps s f1 f2 f3 f4 Hlen E1 E2 E3 E4).
  destruct (is_NS (char_at f2 0)); [|reflexivity].
  destruct (Nat.leb_spec 7 (length f1)); [|lia].
  destruct (Nat.leb_spec 9 (length f3)); [|lia].
  cbn [andb]. cbv zeta.
  assert ((strtol (take 2 f1) 10 =? 0) || f_eqb (strtof (take 6 (drop 2 f1))) zero
          || (strtol (take 3 f3) 10 =? 0)
          || f_eqb (strtof (take 7 (drop 3 f3))) zero = true) as ->;
    [|reflexivity].
  destruct Hz as [Hz|[Hz|[Hz|Hz]]]; rewrite Hz;
    rewrite ?Z.eqb_refl, ?orb_true_r; reflexivity.
Qed.

Lemma nmea_GLL_zero_sentinel_witness :
  nmea_GLL gps_prev gll_equator = Ok (0, gps_prev).
Proof.
  apply (nmea_GLL_zero_sentinel gps_prev gll_equator
           (bytes "0012.34567") (bytes "00833.91565")).
  - vm_compute. lia.
  - reflexivity.
  - reflexivity.
  - vm_compute. lia.
  - vm_compute. lia.
  - left. reflexivity.
Defined.

(** X6.  [nmea_GLL] reads past the block of a token exactly when the
    sentence has at least five fields, field 2 starts with N or S, and the
    latitude field has fewer than 7 characters or the longitude field fewer
    than 9: the two [memcpy] pairs read 8 and 10 bytes whatever the length
    of the field.  It faults in no other way. *)
Theorem nmea_GLL_read_bounds gps s :
  (nmea_GLL gps s = Fault ReadPastAllocation <->
     (5 <= length (fields s))%nat /\
     exists f1 f2 f3,
       fields s !! 1%nat = Some f1 /\ fields s !! 2%nat = Some f2
       /\ fields s !! 3%nat = Some f3 /\ is_NS (char_at f2 0) = true
       /\ ((length f1 < 7)%nat \/ (length f3 < 9)%nat))
  /\ (forall f, nmea_GLL gps s = Fault f -> f = ReadPastAllocation).
Proof.
  destruct (Nat.ltb_spec (length (fields s)) 5) as [Hlt|Hge].
  { rewrite (nmea_GLL_short _ _ Hlt). split; [|discriminate].
    split; [discriminate|]. intros [H _]. lia. }
  four_fields s Hge f1 f2 f3 f4 E1 E2 E3 E4.
  rewrite (nmea_GLL_cases gps s f1 f2 f3 f4 Hge E1 E2 E3 E4).
  destruct (is_NS (char_at f2 0)) eqn:Ens.
  - destruct (Nat.leb_spec 7 (length f1)) as [H1|H1];
      destruct (Nat.leb_spec 9 (length f3)) as [H3|H3]; cbn [andb].
    + cbv zeta.
      match goal with |- context [if ?b then Ok (0, gps) else _] => destruct b end;
        (split; [|discriminate]); (split; [discriminate|]);
        intros (_ & a1 & a2 & a3 & A1 & _ & A3 & _ & Hs);
        rewrite E1 in A1; rewrite E3 in A3;
        injection A1 as <-; injection A3 as <-; lia.
    + split; [|intros f [= <-]; reflexivity].
      split; [|reflexivity]. intros _. split; [exact Hge|].
      exists f1, f2, f3. repeat split; try assumption.
      first [left; lia | right; lia].
    + split; [|intros f [= <-]; reflexivity].
      split; [|reflexivity]. intros _. split; [exact Hge|].
      exists f1, f2, f3. repeat split; try assumption.
      first [left; lia | right; lia].
    + split; [|intros f [= <-]; reflexivity].
      split; [|reflexivity]. intros _. split; [exact Hge|].
      exists f1, f2, f3. repeat split; try assumption.
      first [left; lia | right; lia].
  - split; [|discriminate]. split; [discriminate|].
    intros (_ & a1 & a2 & a3 & _ & A2 & _ & Hns & _).
    rewrite E2 in A2. injection A2 as <-. congruence.
Qed.

Lemma nmea_GLL_read_bounds_witness :
  nmea_GLL gps_prev gll_short_lon = Fault ReadPastAllocation.
Proof.
  apply (proj1 (nmea_GLL_read_bounds gps_prev gll_short_lon)).
  split; [vm_compute; lia|].
  exists (bytes "4916.45000"), (bytes "N"), (bytes "12311.12").
  repeat split. right. vm_compute. lia.
Defined.

(** [nmea_GGA] on a sentence of at least ten fields, as a function of the
    fields. *)
Lemma nmea_GGA_cases gps s f1 f2 f3 f4 f5 f6 f7 f8 f9 :
  (10 <= length (fields s))%nat ->
  fields s !! 1%nat = Some f1 -> fields s !! 2%nat = Some f2 ->
  fields s !! 3%nat = Some f3 -> fields s !! 4%nat = Some f4 ->
  fields s !! 5%nat = Some f5 -> fields s !! 6%nat = Some f6 ->
  fields s !! 7%nat = Some f7 -> fields s !! 8%nat = Some f8 ->
  fields s !! 9%nat = Some f9 ->
  nmea_GGA gps s =
    let g1 := set_lastMeasure (time_of (Some f1) (lastMeasure gps)) gps in
    if negb (is_NS (char_at f3 0)) then Ok (0, g1)
    else if (7 <=? length f2)%nat then
      let la := deg_single (strtol (take 2 f2) 10) (strtof (take 6 (drop 2 f2))) in
      if f_leb la (f64_of_int 0) || f_geb la (f64_of_int 90) then Ok (0, g1)
      else if negb (is_EW (char_at f5 0)) then Ok (0, g1)
      else if (9 <=? length f4)%nat then
        let lo := deg_single (strtol (take 3 f4) 10) (strtof (take 7 (drop 3 f4))) in
        if f_leb lo (f64_of_int 0) || f_geb lo (f64_of_int 180) then Ok (0, g1)
        else Ok (1, mkGPS (if Ascii.eqb (char_at f3 0) "S" then SFopp la else la)
                          (NS gps)
                          (if Ascii.eqb (char_at f5 0) "W" then SFopp lo else lo)
                          (EW gps)
                          (if f_nonzero (strtof f9) then strtof f9 else altitude gps)
                          (if f_nonzero (strtof f8) then strtof f8 else hdop gps)
                          (strtol f7 10)
                          (if 0 <? strtol f6 10 then 1 else 0)
                          (time_of (Some f1) (lastMeasure gps)))
      else Fault ReadPastAllocation
    else Fault ReadPastAllocation.
Proof.
  intros Hlen E1 E2 E3 E4 E5 E6 E7 E8 E9.
  pose proof (field_no_nul _ _ _ E1) as N1.
  pose proof (field_no_nul _ _ _ E2) as N2.
  pose proof (field_no_nul _ _ _ E4) as N4.
  unfold nmea_GGA. rewrite tokenize_spec. cbv beta iota zeta.
  rewrite !field_val_of, E1, E2, E3, E4, E5, E6, E7, E8, E9. unfold mbind.
  destruct (Nat.ltb_spec (length (fields s)) 10); [lia|].
  unfold res_bind at 1 2. cbv beta iota.
  rewrite (time_write_or_clear _ _ N1).
  destruct (negb (is_NS (char_at f3 0))); [reflexivity|].
  unfold res_bind at 1. cbv beta iota.
  destruct (Nat.leb_spec 7 (length f2)) as [H2|H2].
  - destruct (memcpy_ok 3 f2 0 2 N2 ltac:(lia) ltac:(lia)) as (a & -> & Ha).
    destruct (memcpy_ok 8 f2 2 6 N2 ltac:(lia) ltac:(lia)) as (a0 & -> & Ha0).
    rewrite drop_0 in Ha.
    unfold res_bind at 1 2. cbv beta iota.
    rewrite (strtol_cstr a), (strtof_cstr a0), Ha, Ha0.
    fold (deg_single (strtol (take 2 f2) 10) (strtof (take 6 (drop 2 f2)))).
    destruct (f_leb _ _ || f_geb _ _); [reflexivity|].
    unfold res_bind at 1. cbv beta iota.
    destruct (negb (is_EW (char_at f5 0))); [reflexivity|].
    unfold res_bind at 1. cbv beta iota.
    destruct (Nat.leb_spec 9 (length f4)) as [H4|H4].
    + destruct (memcpy_ok 4 f4 0 3 N4 ltac:(lia) ltac:(lia)) as (a1 & -> & Ha1).
      destruct (memcpy_ok 8 f4 3 7 N4 ltac:(lia) ltac:(lia)) as (a2 & -> & Ha2).
      rewrite drop_0 in Ha1.
      unfold res_bind. cbv beta iota.
      rewrite (strtol_cstr a1), (strtof_cstr a2), Ha1, Ha2.
      fold (deg_single (strtol (take 3 f4) 10) (strtof (take 7 (drop 3 f4)))).
      destruct (f_leb _ _ || f_geb _ _); reflexivity.
    + assert (memcpy (replicate 8 NUL) f4 3 7 = Fault ReadPastAllocation) as Hf
        by (apply memcpy_fail; lia).
      destruct (memcpy (replicate 4 NUL) f4 0 3) as [a1|f] eqn:Em.
      * unfold res_bind. rewrite Hf. reflexivity.
      * unfold memcpy in Em.
        destruct (0 + 3 <=? length f4 + 1)%nat; [discriminate|].
        injection Em as <-. reflexivity.
  - assert (memcpy (replicate 8 NUL) f2 2 6 = Fault ReadPastAllocation) as Hf
      by (apply memcpy_fail; lia).
    destruct (memcpy (replicate 3 NUL) f2 0 2) as [a|f] eqn:Em.
    + unfold res_bind. rewrite Hf. reflexivity.
    + unfold memcpy in Em.
      destruct (0 + 2 <=? length f2 + 1)%nat; [discriminate|].
      injection Em as <-. reflexivity.
Qed.

(** X7.  When [nmea_GGA] succeeds the hemisphere is stored in the sign and
    nowhere else: the latitude is the decoded value, negated when field 3
    starts with S, the longitude likewise with W in field 5, and the fields
    [NS] and [EW] of the record are not written.  The fix flag is 1 when
    field 6 reads as a positive integer and 0 otherwise, the satellite count
    is field 7 as [strtol] reads it, and the time is taken from field 1. *)
Theorem nmea_GGA_signed gps s g' :
  nmea_GGA gps s = Ok (1, g') ->
  exists f1 f2 f3 f4 f5 f6 f7,
    fields s !! 1%nat = Some f1 /\ fields s !! 2%nat = Some f2
    /\ fields s !! 3%nat = Some f3 /\ fields s !! 4%nat = Some f4
    /\ fields s !! 5%nat = Some f5 /\ fields s !! 6%nat = Some f6
    /\ fields s !! 7%nat = Some f7
    /\ (char_at f3 0 = "N"%char \/ char_at f3 0 = "S"%char)
    /\ (char_at f5 0 = "E"%char \/ char_at f5 0 = "W"%char)
    /\ lat g' =
         (let la := deg_single (strtol (take 2 f2) 10)
                               (strtof (take 6 (drop 2 f2))) in
          if Ascii.eqb (char_at f3 0) "S" then SFopp la else la)
    /\ lon g' =
         (let lo := deg_single (strtol (take 3 f4) 10)
                               (strtof (take 7 (drop 3 f4))) in
          if Ascii.eqb (char_at f5 0) "W" then SFopp lo else lo)
    /\ NS g' = NS gps /\ EW g' = EW gps
    /\ fix_ g' = (if 0 <? strtol f6 10 then 1 else 0)
    /\ satelliteCount g' = strtol f7 10
    /\ lastMeasure g' = time_of (Some f1) (lastMeasure gps).
Proof.
  intros H. apply nmea_GGA_success in H
    as (f1 & f2 & f3 & f4 & f5 & f6 & f7 & f8 & f9 & E1 & E2 & E3 & E4 & E5
        & E6 & E7 & _ & _ & Hns & Hew & _ & _ & _ & _ & ->).
  exists f1, f2, f3, f4, f5, f6, f7. cbn.
  repeat split; try assumption.
  - apply is_NS_true, Hns.
  - apply is_EW_true, Hew.
Qed.

Lemma nmea_GGA_signed_witness :
  exists g',
    nmea_GGA gps_prev gga_south_west = Ok (1, g')
    /\ lat g' = SFopp (deg_single 33 (strtof (bytes "51.123")))
    /\ lon g' = SFopp (deg_single 70 (strtof (bytes "40.5432")))
    /\ NS g' = "N"%char /\ EW g' = "E"%char
    /\ fix_ g' = 1 /\ satelliteCount g' = 11.
Proof.
  destruct (nmea_GGA gps_prev gga_south_west) as [[rc g']|] eqn:E;
    [|vm_compute in E; discriminate E].
  assert (rc = 1) as -> by (vm_compute in E; congruence).
  exists g'. split; [reflexivity|].
  destruct (nmea_GGA_signed gps_prev gga_south_west g' E)
    as (f1 & f2 & f3 & f4 & f5 & f6 & f7 & E1 & E2 & E3 & E4 & E5 & E6 & E7
        & _ & _ & Hlat & Hlon & Hns & Hew & Hfix & Hsat & _).
  vm_compute in E1, E2, E3, E4, E5, E6, E7.
  injection E1 as <-. injection E2 as <-. injection E3 as <-.
  injection E4 as <-. injection E5 as <-. injection E6 as <-.
  injection E7 as <-.
  repeat split; assumption.
Defined.

Lemma SFcompare_antisym x y :
  SFcompare y x = option_map CompOpp (SFcompare x y).
Proof.
  destruct x as [sx|sx| |sx mx ex], y as [sy|sy| |sy my ey]; simpl;
    try reflexivity;
    try (destruct sx; reflexivity); try (destruct sy; reflexivity);
    try (destruct sx, sy; reflexivity).
  destruct sx, sy; simpl; try reflexivity.
  - rewrite (Z.compare_antisym ex ey).
    destruct (ex ?= ey); simpl; try reflexivity.
    rewrite (Pos.compare_cont_antisym mx my Eq). reflexivity.
  - rewrite (Z.compare_antisym ex ey).
    destruct (ex ?= ey); simpl; try reflexivity.
    rewrite (Pos.compare_cont_antisym mx my Eq). reflexivity.
Qed.

Lemma SFcompare_None x y : SFcompare x y = None -> x = S754_nan \/ y = S754_nan.
Proof.
  destruct x as [sx|sx| |sx mx ex], y as [sy|sy| |sy my ey]; simpl;
    intros H; try discriminate H; auto.
Qed.

(** A failed [x <= y] means [y < x] unless a NaN is compared. *)
Lemma SFleb_false x y :
  SFleb x y = false -> x = S754_nan \/ y = S754_nan \/ SFltb y x = true.
Proof.
  unfold SFleb, SFltb. rewrite (SFcompare_antisym x y).
  destruct (SFcompare x y) as [[]|] eqn:E; simpl; try discriminate; auto.
  intros _. apply SFcompare_None in E as [E|E]; auto.
Qed.

Lemma SFabs_positive x : SFltb zero x = true -> SFabs x = x.
Proof.
  unfold SFltb, zero.
  destruct x as [sx|sx| |sx mx ex]; simpl; try discriminate;
    destruct sx; simpl; try discriminate; reflexivity.
Qed.

Lemma SFabs_opp x : SFabs (SFopp x) = SFabs x.
Proof. destruct x; reflexivity. Qed.

(** The magnitude kept by the range test [x <= 0 || x >= bound]. *)
Lemma range_test x bound sg :
  bound <> S754_nan ->
  f_leb x (f64_of_int 0) = false -> f_geb x bound = false ->
  let stored := if sg : bool then SFopp x else x in
  stored = S754_nan
  \/ (SFltb zero (SFabs stored) = true /\ SFltb (SFabs stored) bound = true).
Proof.
  intros Hb Hlo Hhi stored.
  change (f64_of_int 0) with zero in Hlo.
  apply SFleb_false in Hlo as [->|[Hz|Hlo]].
  - left. subst stored. destruct sg; reflexivity.
  - discriminate Hz.
  - apply SFleb_false in Hhi as [Hhi|[->|Hhi]].
    + contradiction.
    + discriminate Hlo.
    + right. assert (SFabs stored = x) as ->; [|auto].
      subst stored. destruct sg; rewrite ?SFabs_opp; apply SFabs_positive, Hlo.
Qed.

(** X8.  A latitude stored by a successful [nmea_GGA] is a NaN or has a
    magnitude strictly between 0 and 90, and a longitude is a NaN or has a
    magnitude strictly between 0 and 180: the range tests are written as
    rejections, which a NaN does not meet. *)
Theorem nmea_GGA_range gps s g' :
  nmea_GGA gps s = Ok (1, g') ->
  (lat g' = S754_nan
   \/ (SFltb zero (SFabs (lat g')) = true
       /\ SFltb (SFabs (lat g')) (f64_of_int 90) = true))
  /\ (lon g' = S754_nan
      \/ (SFltb zero (SFabs (lon g')) = true
          /\ SFltb (SFabs (lon g')) (f64_of_int 180) = true)).
Proof.
  intros H. apply nmea_GGA_success in H
    as (f1 & f2 & f3 & f4 & f5 & f6 & f7 & f8 & f9 & _ & _ & _ & _ & _
        & _ & _ & _ & _ & _ & _ & Hla0 & Hla1 & Hlo0 & Hlo1 & ->).
  cbn [lat lon]. split.
  - apply (range_test _ (f64_of_int 90) (Ascii.eqb (char_at f3 0) "S"));
      [discriminate|assumption|assumption].
  - apply (range_test _ (f64_of_int 180) (Ascii.eqb (char_at f5 0) "W"));
      [discriminate|assumption|assumption].
Qed.

Lemma nmea_GGA_range_witness :
  exists g',
    nmea_GGA gps_prev gga_south_west = Ok (1, g')
    /\ SFltb (SFabs (lat g')) (f64_of_int 90) = true
    /\ SFltb (SFabs (lon g')) (f64_of_int 180) = true.
Proof.
  destruct (nmea_GGA gps_prev gga_south_west) as [[rc g']|] eqn:E;
    [|vm_compute in E; discriminate E].
  assert (rc = 1) as -> by (vm_compute in E; congruence).
  exists g'. split; [reflexivity|].
  destruct (nmea_GGA_range gps_prev gga_south_west g' E) as [Hla Hlo].
  vm_compute in E. injection E as <-.
  split.
  - destruct Hla as [Hn|[_ H]]; [discriminate Hn|exact H].
  - destruct Hlo as [Hn|[_ H]]; [discriminate Hn|exact H].
Defined.

Lemma nmea_GGA_short gps s :
  (length (fields s) < 10)%nat -> nmea_GGA gps s = Ok (0, gps).
Proof.
  intros H. unfold nmea_GGA. rewrite tokenize_spec.
  destruct (Nat.ltb_spec (length (fields s)) 10); [reflexivity|lia].
Qed.

Ltac nine_fields s Hlen :=
  let go i := (let f := fresh "f" in let E := fresh "E" in
               destruct (field_present (fields s) i ltac:(lia)) as [f E]) in
  go 1%nat; go 2%nat; go 3%nat; go 4%nat; go 5%nat; go 6%nat; go 7%nat;
  go 8%nat; go 9%nat.

(** The outcomes of [nmea_GGA]: 0 or 1, or a read past a token. *)
Lemma nmea_GGA_outcome gps s :
  (exists rc g', nmea_GGA gps s = Ok (rc, g') /\ (rc = 0 \/ rc = 1))
  \/ nmea_GGA gps s = Fault ReadPastAllocation.
Proof.
  destruct (Nat.ltb_spec (length (fields s)) 10) as [Hlt|Hge].
  { left. rewrite (nmea_GGA_short _ _ Hlt). eauto. }
  nine_fields s Hge.
  erewrite nmea_GGA_cases by eassumption. cbv zeta.
  repeat (match goal with
          | |- context [if ?b then _ else _] => destruct b
          end); eauto 10.
Qed.

(** [nmea_GGA] fails by a read past a token only. *)
Lemma nmea_GGA_fault gps s f :
  nmea_GGA gps s = Fault f -> f = ReadPastAllocation.
Proof.
  intros Hf. destruct (nmea_GGA_outcome gps s) as [(rc & g' & H & _)|H];
    rewrite H in Hf; [discriminate|]. injection Hf as <-. reflexivity.
Qed.

(** With coordinate fields long enough [nmea_GGA] returns. *)
Lemma nmea_GGA_returns gps s a2 a4 :
  fields s !! 2%nat = Some a2 -> fields s !! 4%nat = Some a4 ->
  (7 <= length a2)%nat -> (9 <= length a4)%nat ->
  exists rc g', nmea_GGA gps s = Ok (rc, g') /\ (rc = 0 \/ rc = 1).
Proof.
  intros A2 A4 H2 H4.
  destruct (Nat.ltb_spec (length (fields s)) 10) as [Hlt|Hge].
  { rewrite (nmea_GGA_short _ _ Hlt). eauto. }
  nine_fields s Hge.
  erewrite nmea_GGA_cases by eassumption. cbv zeta.
  rewrite A2 in E0. rewrite A4 in E2. injection E0 as <-. injection E2 as <-.
  destruct (Nat.leb_spec 7 (length a2)); [|lia].
  destruct (Nat.leb_spec 9 (length a4)); [|lia].
  repeat (match goal with
          | |- context [if ?b then _ else _] => destruct b
          end); eauto 10.
Qed.

(** A latitude field under seven characters is read past its block. *)
Lemma nmea_GGA_over_read gps s a2 a3 :
  (10 <= length (fields s))%nat ->
  fields s !! 2%nat = Some a2 -> fields s !! 3%nat = Some a3 ->
  is_NS (char_at a3 0) = true -> (length a2 < 7)%nat ->
  nmea_GGA gps s = Fault ReadPastAllocation.
Proof.
  intros Hge A2 A3 Hns H2.
  nine_fields s Hge.
  erewrite nmea_GGA_cases by eassumption. cbv zeta.
  rewrite A2 in E0. rewrite A3 in E1. injection E0 as <-. injection E1 as <-.
  rewrite Hns. cbn [negb].
  destruct (Nat.leb_spec 7 (length a2)); [lia|reflexivity].
Qed.

(** ** The checksum under changes of the sentence *)

Lemma uchar_inj c c' : uchar c = uchar c' -> c = c'.
Proof.
  unfold uchar. intros H. apply N2Z.inj in H.
  rewrite <- (ascii_N_embedding c), <- (ascii_N_embedding c'), H.
  reflexivity.
Qed.

Lemma xor_bytes_app a b : xor_bytes (a ++ b) = Z.lxor (xor_bytes a) (xor_bytes b).
Proof.
  induction a as [|c a IH]; simpl.
  - reflexivity.
  - unfold xor_bytes in *. simpl. rewrite IH, Z.lxor_assoc. reflexivity.
Qed.

Lemma xor_bytes_change a b c c' :
  xor_bytes (a ++ c :: b) = xor_bytes (a ++ c' :: b) -> c = c'.
Proof.
  rewrite !xor_bytes_app.
  change (xor_bytes (c :: b)) with (Z.lxor (uchar c) (xor_bytes b)).
  change (xor_bytes (c' :: b)) with (Z.lxor (uchar c') (xor_bytes b)).
  intros H. apply uchar_inj.
  apply (f_equal (Z.lxor (xor_bytes a))) in H.
  rewrite <- !Z.lxor_assoc, !Z.lxor_nilpotent, !Z.lxor_0_l in H.
  apply (f_equal (fun z => Z.lxor z (xor_bytes b))) in H.
  rewrite !Z.lxor_assoc, !Z.lxor_nilpotent, !Z.lxor_0_r in H. exact H.
Qed.

(** X10.  A sentence that passes [getChecksum] fails it as soon as one byte
    before the star is replaced by a different byte (other than NUL and the
    star): every corruption of a single byte of the body is detected. *)
Theorem getChecksum_detects_change a b c c' tail :
  NUL ∉ a ++ c :: b ++ "*"%char :: tail -> "*"%char ∉ a ++ c :: b ->
  c' <> c -> c' <> NUL -> c' <> "*"%char ->
  getChecksum (a ++ c :: b ++ "*"%char :: tail) = 1 ->
  getChecksum (a ++ c' :: b ++ "*"%char :: tail) = 0.
Proof.
  intros Hnul Hstar Hc Hc0 Hcs.
  assert (NUL ∉ a ++ c' :: b ++ "*"%char :: tail) as Hnul'.
  { intros Hin. apply elem_of_app in Hin as [Hin|Hin].
    - apply Hnul, elem_of_app. auto.
    - apply elem_of_cons in Hin as [Hin|Hin]; [congruence|].
      apply Hnul, elem_of_app. right. right. exact Hin. }
  assert ("*"%char ∉ a ++ c' :: b) as Hstar'.
  { intros Hin. apply elem_of_app in Hin as [Hin|Hin].
    - apply Hstar, elem_of_app. auto.
    - apply elem_of_cons in Hin as [Hin|Hin]; [congruence|].
      apply Hstar, elem_of_app. right. right. exact Hin. }
  replace (a ++ c :: b ++ "*"%char :: tail)
    with ((a ++ c :: b) ++ "*"%char :: tail) in *
    by (rewrite <- app_assoc; reflexivity).
  replace (a ++ c' :: b ++ "*"%char :: tail)
    with ((a ++ c' :: b) ++ "*"%char :: tail) in *
    by (rewrite <- app_assoc; reflexivity).
  rewrite (getChecksum_at_star _ _ Hnul Hstar).
  rewrite (getChecksum_at_star _ _ Hnul' Hstar').
  rewrite !length_app. cbn [length].
  destruct ((length a + S (length b) + S (length tail) <? 5)%nat
            || (length tail <? 2)%nat); [discriminate|].
  destruct (Z.eqb_spec (xor_bytes (a ++ c :: b))
              (strtol [char_at tail 0; char_at tail 1] 16)) as [E|];
    [|discriminate].
  intros _.
  destruct (Z.eqb_spec (xor_bytes (a ++ c' :: b))
              (strtol [char_at tail 0; char_at tail 1] 16)) as [E'|];
    [|reflexivity].
  exfalso. apply Hc. symmetry. apply (xor_bytes_change a b). congruence.
Qed.

Lemma getChecksum_detects_change_witness :
  getChecksum (bytes "GPGLL,4717.11364,N,00833.91565,E,092321.00,A,A*60") = 1
  /\ getChecksum (bytes "GPGLL,4717.11364,N,00833.91565,W,092321.00,A,A*60") = 0.
Proof.
  assert (getChecksum (bytes "GPGLL,4717.11364,N,00833.91565,E,092321.00,A,A*60") = 1)
    as H1 by (vm_compute; reflexivity).
  split; [exact H1|].
  apply (getChecksum_detects_change (bytes "GPGLL,4717.11364,N,00833.91565,")
           (bytes ",092321.00,A,A") "E"%char "W"%char (bytes "60")).
  - apply (bool_decide_unpack _). vm_compute. exact I.
  - apply (bool_decide_unpack _). vm_compute. exact I.
  - discriminate.
  - discriminate.
  - discriminate.
  - exact H1.
Defined.

Lemma lower_is_nul c : is_nul (lower c) = is_nul c.
Proof. destruct c as [[] [] [] [] [] [] [] []]; reflexivity. Qed.

Lemma lower_isspace c : isspace (lower c) = isspace c.
Proof. destruct c as [[] [] [] [] [] [] [] []]; reflexivity. Qed.

Lemma lower_digit_in base c : digit_in base (lower c) = digit_in base c.
Proof.
  unfold digit_in.
  assert (digit_val (lower c) = digit_val c) as ->; [|reflexivity].
  destruct c as [[] [] [] [] [] [] [] []]; reflexivity.
Qed.

Lemma lower_x c :
  Ascii.eqb (lower c) "x" || Ascii.eqb (lower c) "X"
  = Ascii.eqb c "x" || Ascii.eqb c "X".
Proof. destruct c as [[] [] [] [] [] [] [] []]; reflexivity. Qed.

Lemma cstr_lower s : cstr (map lower s) = map lower (cstr s).
Proof.
  induction s as [|c s IH]; [reflexivity|]. cbn [map cstr].
  rewrite lower_is_nul. destruct (is_nul c); [reflexivity|].
  cbn [map]. rewrite IH. reflexivity.
Qed.

Lemma skip_space_lower s :
  skip_space (map lower s) = map lower (skip_space s).
Proof.
  induction s as [|c s IH]; [reflexivity|]. cbn [map skip_space].
  rewrite lower_isspace. destruct (isspace c); [exact IH|reflexivity].
Qed.

Ltac lower_eval :=
  repeat match goal with
  | |- context [lower (Ascii ?a ?b ?c ?d ?e ?f ?g ?h)] =>
      let v := eval vm_compute in (lower (Ascii a b c d e f g h)) in
      change (lower (Ascii a b c d e f g h)) with v
  end.

Lemma take_sign_lower s :
  take_sign (map lower s) =
    (fst (take_sign s), map lower (snd (take_sign s))).
Proof.
  destruct s as [|c s]; [reflexivity|].
  destruct c as [[] [] [] [] [] [] [] []];
    cbn [map take_sign fst snd]; lower_eval; reflexivity.
Qed.

Lemma skip_0x_lower base s :
  skip_0x base (map lower s) = map lower (skip_0x base s).
Proof.
  destruct s as [|c0 s]; [reflexivity|].
  destruct s as [|x s];
    [destruct c0 as [[] [] [] [] [] [] [] []];
     cbn [map skip_0x]; lower_eval; reflexivity|].
  destruct s as [|h s];
    [destruct c0 as [[] [] [] [] [] [] [] []];
     cbn [map skip_0x]; lower_eval; reflexivity|].
  destruct c0 as [[] [] [] [] [] [] [] []];
    cbn [map skip_0x]; lower_eval; try reflexivity.
  rewrite lower_x, lower_digit_in.
  match goal with |- context [if ?b then _ else _] => destruct b end;
    reflexivity.
Qed.

Lemma accum_digits_lower base s : forall acc,
  accum_digits base acc (map lower s) = accum_digits base acc s.
Proof.
  induction s as [|c s IH]; intros acc; [reflexivity|].
  cbn [map accum_digits]. rewrite lower_digit_in.
  destruct (digit_in base c); [apply IH|reflexivity].
Qed.

(** [strtol] does not tell upper-case from lower-case letters. *)
Lemma strtol_lower s base : strtol (map lower s) base = strtol s base.
Proof.
  unfold strtol.
  rewrite cstr_lower, skip_space_lower, take_sign_lower.
  destruct (take_sign (skip_space (cstr s))) as [neg s1]. cbn [fst snd].
  rewrite skip_0x_lower, accum_digits_lower. reflexivity.
Qed.

Lemma lower_not_nul c : c <> NUL -> lower c <> NUL.
Proof.
  intros H E. apply H. apply is_nul_true.
  rewrite <- lower_is_nul. apply is_nul_true. exact E.
Qed.

(** X11.  [getChecksum] reads the two checksum characters without regard to
    the case of letters: a sentence and the same sentence with its checksum
    characters in lower case get the same verdict. *)
Theorem getChecksum_hex_case body c1 c2 rest :
  NUL ∉ body ++ "*"%char :: c1 :: c2 :: rest -> "*"%char ∉ body ->
  getChecksum (body ++ "*"%char :: lower c1 :: lower c2 :: rest)
  = getChecksum (body ++ "*"%char :: c1 :: c2 :: rest).
Proof.
  intros Hnul Hstar.
  assert (NUL ∉ body ++ "*"%char :: lower c1 :: lower c2 :: rest) as Hnul'.
  { intros Hin. apply elem_of_app in Hin as [Hin|Hin].
    - apply Hnul, elem_of_app. auto.
    - apply elem_of_cons in Hin as [Hin|Hin]; [discriminate Hin|].
      assert (c1 <> NUL /\ c2 <> NUL /\ NUL ∉ rest) as (H1 & H2 & H3).
      { repeat split; intros H; apply Hnul, elem_of_app; right.
        - subst c1. right. left.
        - subst c2. right. right. left.
        - right. right. right. exact H. }
      apply elem_of_cons in Hin as [Hin|Hin];
        [symmetry in Hin; revert Hin; apply lower_not_nul, H1|].
      apply elem_of_cons in Hin as [Hin|Hin];
        [symmetry in Hin; revert Hin; apply lower_not_nul, H2|].
      contradiction. }
  rewrite (getChecksum_at_star _ _ Hnul' Hstar).
  rewrite (getChecksum_at_star _ _ Hnul Hstar).
  rewrite !length_app. cbn [length].
  change (char_at (lower c1 :: lower c2 :: rest) 0) with (lower c1).
  change (char_at (lower c1 :: lower c2 :: rest) 1) with (lower c2).
  change (char_at (c1 :: c2 :: rest) 0) with c1.
  change (char_at (c1 :: c2 :: rest) 1) with c2.
  change [lower c1; lower c2] with (map lower [c1; c2]).
  rewrite strtol_lower. reflexivity.
Qed.

Lemma getChecksum_hex_case_witness :
  getChecksum (bytes "GPGSA,A,3,10,07,05,02,29,04,08,13,,,,,1.72,1.03,1.38*0a") = 1.
Proof.
  assert (getChecksum (bytes "GPGSA,A,3,10,07,05,02,29,04,08,13,,,,,1.72,1.03,1.38*0A") = 1)
    as H by (vm_compute; reflexivity).
  rewrite <- H.
  apply (getChecksum_hex_case
           (bytes "GPGSA,A,3,10,07,05,02,29,04,08,13,,,,,1.72,1.03,1.38")
           "0"%char "A"%char []).
  - apply (bool_decide_unpack _). vm_compute. exact I.
  - apply (bool_decide_unpack _). vm_compute. exact I.
Defined.

(** ** The pass of [gpsParse] over a buffer *)

Lemma cut_cstr b : forall flag,
  cut flag b = cut flag (cstr b) ++ drop (length (cstr b)) b.
Proof.
  induction b as [|c b IH]; intros flag; [reflexivity|].
  cbn [cstr]. destruct (is_nul c) eqn:E.
  - cbn [cut]. rewrite E. reflexivity.
  - cbn [cut length drop]. rewrite E.
    destruct (Ascii.eqb c "$"); cbn [app]; f_equal; apply IH.
Qed.

Lemma candidates_cstr b : candidates (cstr b) = candidates b.
Proof. unfold candidates. rewrite cstr_cstr. reflexivity. Qed.

(** X12.  [gpsParse] reads and writes its buffer up to the first NUL only:
    the record it leaves is the one it leaves on the bytes before that NUL,
    and the bytes from that NUL on are as they were. *)
Theorem gpsParse_terminator gps b :
  gpsParse gps b =
    (r ← gpsParse gps (cstr b);
     Ok (fst r, snd r ++ drop (length (cstr b)) b)).
Proof.
  rewrite !gpsParse_split, candidates_cstr.
  destruct (length (candidates b) <=? 15)%nat; [|reflexivity].
  destruct (run (candidates b) gps) as [g|f]; [|reflexivity].
  cbn. rewrite <- cut_cstr. reflexivity.
Qed.

Lemma nmea_GSV_keeps gps s : call (nmea_GSV gps s) = Ok gps.
Proof.
  unfold nmea_GSV. destruct (tokenize s) as [val cnt].
  destruct (cnt <? 2)%nat; reflexivity.
Qed.

Lemma dispatch_inert g c : inert c -> dispatch g c = Ok g.
Proof.
  unfold inert, dispatch. intros [H|[H|(H1 & H2 & H3)]].
  - rewrite H. reflexivity.
  - rewrite H. rewrite andb_false_r. reflexivity.
  - rewrite H1, H2, H3, nmea_GSV_keeps.
    repeat match goal with |- context [if ?b then _ else _] => destruct b end;
      reflexivity.
Qed.

Lemma run_inert cs g : Forall inert cs -> run cs g = Ok g.
Proof.
  induction 1 as [|c cs Hc _ IH]; [reflexivity|].
  cbn [run]. rewrite (dispatch_inert _ _ Hc). exact IH.
Qed.

(** X13.  A buffer of at most fifteen candidates, each of which lacks the
    line end, fails the checksum or carries none of the tags GLL, GSA and
    GGA, leaves the record exactly as it was: GSV sentences and sentences
    of other kinds are split off and dropped. *)
Theorem gpsParse_inert gps b :
  (length (candidates b) <= 15)%nat -> Forall inert (candidates b) ->
  gpsParse gps b = Ok (gps, cut false b).
Proof.
  intros Hlen Hin. rewrite gpsParse_split.
  destruct (Nat.leb_spec (length (candidates b)) 15); [|lia].
  rewrite (run_inert _ _ Hin). reflexivity.
Qed.

Lemma gpsParse_inert_witness :
  gpsParse gps_prev buf_inert = Ok (gps_prev, cut false buf_inert).
Proof.
  apply gpsParse_inert.
  - apply Nat.leb_le. vm_compute. reflexivity.
  - replace (candidates buf_inert)
      with [gsv_line; gga_bad_checksum; bytes "GPRMC,092725.00,A*00"]
      by (vm_compute; reflexivity).
    constructor; [|constructor; [|constructor; [|constructor]]].
    + right. right. repeat split; vm_compute; reflexivity.
    + right. left. vm_compute. reflexivity.
    + left. vm_compute. reflexivity.
Defined.
(** ** The record across a pass *)

Lemma time_of_wf t old :
  length old = 10%nat ->
  length (time_of t old) = 10%nat /\ NUL ∈ time_of t old.
Proof.
  intros Hold. unfold time_of.
  assert (length (<[0%nat := NUL]> old) = 10%nat
          /\ NUL ∈ <[0%nat := NUL]> old) as Hclear.
  { destruct old as [|c old]; [discriminate Hold|].
    cbn [list_insert insert]. split; [exact Hold|left]. }
  destruct t as [t|]; [|exact Hclear].
  destruct (Nat.leb_spec 9 (length t)) as [H9|H9]; [|exact Hclear].
  split.
  - rewrite length_app, length_take. cbn [length]. lia.
  - apply elem_of_app. right. left.
Qed.

Lemma set_time_wf t g :
  gps_wf g ->
  gps_wf (set_lastMeasure (time_of t (lastMeasure g)) g).
Proof.
  intros (Hf & Hl & Hn). destruct (time_of_wf t _ Hl) as [H1 H2].
  split; [exact Hf|]. split; assumption.
Qed.

Lemma nmea_GLL_wf gps s rc g' :
  gps_wf gps -> nmea_GLL gps s = Ok (rc, g') -> gps_wf g'.
Proof.
  intros Hwf.
  destruct (Nat.ltb_spec (length (fields s)) 5) as [Hlt|Hge].
  { rewrite (nmea_GLL_short _ _ Hlt). intros [= _ <-]. exact Hwf. }
  four_fields s Hge f1 f2 f3 f4 E1 E2 E3 E4.
  rewrite (nmea_GLL_cases gps s f1 f2 f3 f4 Hge E1 E2 E3 E4). cbv zeta.
  repeat (match goal with
          | |- context [if ?b then _ else _] => destruct b
          end); try discriminate; intros [= _ <-]; try exact Hwf.
  destruct Hwf as (Hf & Hl & Hn).
  destruct (time_of_wf (fields s !! 5%nat) _ Hl) as [H1 H2].
  split; [exact Hf|]. split; assumption.
Qed.

Lemma nmea_GSA_wf gps s rc g' :
  gps_wf gps -> nmea_GSA gps s = Ok (rc, g') -> gps_wf g'.
Proof.
  intros Hwf. unfold nmea_GSA. rewrite tokenize_spec. cbv beta iota zeta.
  rewrite !field_val_of. unfold mbind.
  destruct (Nat.ltb_spec (length (fields s)) 15) as [Hlt|Hge].
  { intros [= _ <-]. exact Hwf. }
  destruct (field_present (fields s) 2 ltac:(lia)) as [f2 E2].
  rewrite E2. unfold res_bind at 1. cbv beta iota.
  rewrite (count_used_spec _ (fields_Forall_no_nul s)) by (simpl; lia).
  cbv beta iota. intros [= _ <-].
  destruct Hwf as (Hf & Hl & Hn).
  split; [|split; assumption].
  cbn. destruct (1 <? strtol f2 10); auto.
Qed.

Lemma nmea_GGA_wf gps s rc g' :
  gps_wf gps -> nmea_GGA gps s = Ok (rc, g') -> gps_wf g'.
Proof.
  intros Hwf.
  destruct (Nat.ltb_spec (length (fields s)) 10) as [Hlt|Hge].
  { rewrite (nmea_GGA_short _ _ Hlt). intros [= _ <-]. exact Hwf. }
  nine_fields s Hge.
  erewrite nmea_GGA_cases by eassumption. cbv zeta.
  pose proof (set_time_wf (Some f) gps Hwf) as Hwf1.
  destruct Hwf1 as (Hf & Hl & Hn).
  repeat (match goal with
          | |- context [if ?b then _ else _] => destruct b
          end); try discriminate; intros [= _ <-];
    (split; [|split; assumption]); cbn; try exact Hf; auto.
Qed.

Lemma dispatch_wf g c g' : gps_wf g -> dispatch g c = Ok g' -> gps_wf g'.
Proof.
  intros Hwf. unfold dispatch, call.
  repeat (match goal with
          | |- context [if ?b then _ else _] => destruct b
          end);
    try (intros [= <-]; exact Hwf);
    match goal with
    | |- context [nmea_GLL ?g ?s] =>
        destruct (nmea_GLL g s) as [[rc g1]|] eqn:E; [|discriminate];
        intros [= <-]; exact (nmea_GLL_wf _ _ _ _ Hwf E)
    | |- context [nmea_GSA ?g ?s] =>
        destruct (nmea_GSA g s) as [[rc g1]|] eqn:E; [|discriminate];
        intros [= <-]; exact (nmea_GSA_wf _ _ _ _ Hwf E)
    | |- context [nmea_GGA ?g ?s] =>
        destruct (nmea_GGA g s) as [[rc g1]|] eqn:E; [|discriminate];
        intros [= <-]; exact (nmea_GGA_wf _ _ _ _ Hwf E)
    | |- context [nmea_GSV ?g ?s] =>
        fold (call (nmea_GSV g s)); rewrite nmea_GSV_keeps;
        intros [= <-]; exact Hwf
    end.
Qed.

Lemma run_wf cs : forall g g', gps_wf g -> run cs g = Ok g' -> gps_wf g'.
Proof.
  induction cs as [|c cs IH]; intros g g' Hwf; cbn [run].
  - intros [= <-]. exact Hwf.
  - destruct (dispatch g c) as [g1|] eqn:E; [|discriminate].
    cbn. apply IH. exact (dispatch_wf _ _ _ Hwf E).
Qed.

(** X14.  A pass of [gpsParse] that runs to its end keeps the record well
    formed: when the fix flag is 0 or 1 and the time field is a terminated
    string of ten bytes before the pass, and the pass returns, that is with
    at most fifteen candidates and no read past a token, they are so after
    it.  Nothing is said of a pass that fails. *)
Theorem gpsParse_wf gps b g b' :
  gps_wf gps -> gpsParse gps b = Ok (g, b') -> gps_wf g.
Proof.
  intros Hwf. rewrite gpsParse_split.
  destruct (length (candidates b) <=? 15)%nat; [|discriminate].
  destruct (run (candidates b) gps) as [g1|] eqn:E; [|discriminate].
  cbn. intros [= <- _]. exact (run_wf _ _ _ Hwf E).
Qed.

Lemma gpsParse_wf_witness :
  exists g b', gpsParse gps_prev buf_mixed = Ok (g, b') /\ gps_wf g.
Proof.
  destruct (gpsParse gps_prev buf_mixed) as [[g b']|f] eqn:E.
  - exists g, b'. split; [reflexivity|].
    apply (gpsParse_wf gps_prev buf_mixed g b'); [|exact E].
    split; [right; reflexivity|]. split; [reflexivity|].
    apply (bool_decide_unpack _). vm_compute. exact I.
  - exfalso. vm_compute in E. discriminate E.
Defined.
(** ** Passes over the same memory, and over memory put together *)

Lemma split_on_none d p : d ∉ p -> split_on d p = [p].
Proof.
  induction p as [|c p IH]; intros H; [reflexivity|].
  apply not_elem_of_cons in H as [Hc Hp]. cbn [split_on].
  destruct (Ascii.eqb_spec c d) as [->|_]; [congruence|].
  rewrite (IH Hp). reflexivity.
Qed.

Lemma split_on_hd d s : d ∉ hd [] (split_on d s).
Proof.
  apply (split_on_no_delim d s).
  destruct (split_on d s) as [|t ts] eqn:E; [destruct (split_on_nonnil _ _ E)|].
  left.
Qed.

(** Once a candidate has begun, the pass leaves its bytes and ends it. *)
Lemma cstr_cut_true b : cstr (cut true b) = hd [] (split_on "$" (cstr b)).
Proof.
  induction b as [|c b IH]; [reflexivity|].
  cbn [cut cstr]. destruct (is_nul c) eqn:E.
  - cbn [cstr]. rewrite E. reflexivity.
  - cbn [split_on]. destruct (Ascii.eqb c "$").
    + reflexivity.
    + cbn [cstr]. rewrite E, IH.
      destruct (split_on "$" (cstr b)) as [|t ts] eqn:Es;
        [destruct (split_on_nonnil _ _ Es)|reflexivity].
Qed.

Lemma candidates_dollar r : candidates ("$"%char :: r) = candidates r.
Proof. exact (candidates_skip 1 r). Qed.

Lemma candidates_cut b : candidates (cut false b) = take 1 (candidates b).
Proof.
  induction b as [|c b IH]; [reflexivity|].
  cbn [cut]. destruct (is_nul c) eqn:E.
  { unfold candidates. cbn [cstr]. rewrite E. reflexivity. }
  destruct (Ascii.eqb_spec c "$") as [->|Hc].
  { rewrite !candidates_dollar. exact IH. }
  unfold candidates. cbn [cstr]. rewrite E, cstr_cut_true.
  pose proof (split_on_hd "$" (cstr b)) as Hhd.
  cbn [split_on]. destruct (Ascii.eqb_spec c "$") as [->|_]; [congruence|].
  rewrite (split_on_none _ _ Hhd).
  destruct (split_on "$" (cstr b)) as [|t ts] eqn:Es;
    [destruct (split_on_nonnil _ _ Es)|].
  cbn [hd]. rewrite !filter_cons. cbn [nonempty].
  destruct (decide (true = true)) as [_|n]; [|destruct (n eq_refl)].
  rewrite filter_nil. reflexivity.
Qed.

Lemma cut_cut_true b : forall flag, cut flag (cut true b) = cut true b.
Proof.
  induction b as [|c b IH]; intros flag; [reflexivity|].
  cbn [cut]. destruct (is_nul c) eqn:E.
  { cbn [cut]. rewrite E. reflexivity. }
  destruct (Ascii.eqb c "$") eqn:Ed.
  - reflexivity.
  - cbn [cut]. rewrite E, Ed, IH. reflexivity.
Qed.

Lemma cut_cut b : cut false (cut false b) = cut false b.
Proof.
  induction b as [|c b IH]; [reflexivity|].
  cbn [cut]. destruct (is_nul c) eqn:E.
  { cbn [cut]. rewrite E. reflexivity. }
  destruct (Ascii.eqb c "$") eqn:Ed.
  - cbn [cut]. rewrite E, Ed, IH. reflexivity.
  - cbn [cut]. rewrite E, Ed, cut_cut_true. reflexivity.
Qed.

(** X15.  A second pass of [gpsParse] over the memory the first pass left
    sees the first candidate only, the others lying behind the NUL written
    after it: it dispatches that candidate again on the record of the first
    pass and writes nothing to the buffer; and a third pass changes neither
    the record nor the buffer. *)
Theorem gpsParse_second_pass gps b g1 b1 :
  gpsParse gps b = Ok (g1, b1) ->
  candidates b1 = take 1 (candidates b)
  /\ gpsParse g1 b1 = (g2 ← run (take 1 (candidates b)) g1; Ok (g2, b1))
  /\ (forall g2 b2, gpsParse g1 b1 = Ok (g2, b2) ->
        b2 = b1 /\ gpsParse g2 b1 = Ok (g2, b1)).
Proof.
  rewrite gpsParse_split.
  destruct (length (candidates b) <=? 15)%nat; [|discriminate].
  destruct (run (candidates b) gps) as [g|] eqn:E; [|discriminate].
  cbn. intros [= <- <-].
  assert (forall g0, gpsParse g0 (cut false b) =
            (g2 ← run (take 1 (candidates b)) g0; Ok (g2, cut false b))) as H2.
  { intros g0. rewrite gpsParse_split, candidates_cut, cut_cut.
    destruct (Nat.leb_spec (length (take 1 (candidates b))) 15) as [_|Hgt];
      [reflexivity|].
    rewrite length_take in Hgt. lia. }
  split; [apply candidates_cut|]. split; [apply H2|].
  intros g2 b2. rewrite !H2.
  destruct (run (take 1 (candidates b)) g) as [g3|] eqn:E3; [|discriminate].
  cbn. intros [= <- <-]. split; [reflexivity|].
  rewrite (run_idem _ _ _ E3). reflexivity.
Qed.

Lemma gpsParse_second_pass_witness :
  exists g1 b1,
    gpsParse gps_prev buf_gga_gsa = Ok (g1, b1)
    /\ candidates b1 = [gga_fix]
    /\ gpsParse g1 b1 = (g2 ← run [gga_fix] g1; Ok (g2, b1)).
Proof.
  destruct (gpsParse gps_prev buf_gga_gsa) as [[g1 b1]|f] eqn:E.
  - exists g1, b1. split; [reflexivity|].
    destruct (gpsParse_second_pass gps_prev buf_gga_gsa g1 b1 E)
      as (H1 & H2 & _).
    replace (take 1 (candidates buf_gga_gsa)) with [gga_fix] in H1, H2
      by (vm_compute; reflexivity).
    split; assumption.
  - exfalso. vm_compute in E. discriminate E.
Defined.

Lemma cstr_app_plain a b : NUL ∉ a -> cstr (a ++ b) = a ++ cstr b.
Proof.
  induction a as [|c a IH]; intros H; [reflexivity|].
  apply not_elem_of_cons in H as [Hc Ha]. cbn [app cstr].
  destruct (is_nul c) eqn:E; [apply is_nul_true in E; congruence|].
  rewrite (IH Ha). reflexivity.
Qed.

Lemma split_on_app d a b :
  split_on d (a ++ d :: b) = split_on d a ++ split_on d b.
Proof.
  induction a as [|c a IH]; cbn [app split_on].
  - rewrite Ascii.eqb_refl. reflexivity.
  - destruct (Ascii.eqb c d); [rewrite IH; reflexivity|].
    rewrite IH.
    destruct (split_on d a) as [|t ts] eqn:Es;
      [destruct (split_on_nonnil _ _ Es)|reflexivity].
Qed.

Lemma candidates_app b1 b2 :
  NUL ∉ b1 ->
  candidates (b1 ++ "$"%char :: b2) = candidates b1 ++ candidates b2.
Proof.
  intros H. unfold candidates.
  rewrite (cstr_app_plain _ _ H), (cstr_id _ H).
  change (cstr ("$"%char :: b2)) with ("$"%char :: cstr b2).
  rewrite split_on_app, filter_app. reflexivity.
Qed.

(** X16.  Two buffers handled by two passes in a row leave the record that
    one pass leaves on the two put together with a dollar between them,
    provided the first holds no NUL and the candidates fit the array. *)
Theorem gpsParse_concat gps b1 b2 :
  NUL ∉ b1 ->
  (length (candidates b1) + length (candidates b2) <= 15)%nat ->
  (r ← gpsParse gps (b1 ++ "$"%char :: b2); Ok (fst r))
  = (r1 ← gpsParse gps b1; r2 ← gpsParse (fst r1) b2; Ok (fst r2)).
Proof.
  intros Hn Hlen. rewrite !gpsParse_split, (candidates_app _ _ Hn).
  rewrite length_app.
  destruct (Nat.leb_spec (length (candidates b1) + length (candidates b2)) 15);
    [|lia].
  destruct (Nat.leb_spec (length (candidates b1)) 15); [|lia].
  rewrite run_app.
  destruct (run (candidates b1) gps) as [g1|f]; [|reflexivity].
  cbn. rewrite gpsParse_split.
  destruct (Nat.leb_spec (length (candidates b2)) 15); [|lia].
  destruct (run (candidates b2) g1) as [g2|f]; reflexivity.
Qed.

Lemma gpsParse_concat_witness :
  (r ← gpsParse gps_prev buf_gga_gsa; Ok (fst r))
  = (r1 ← gpsParse gps_prev (bytes "$" ++ gga_fix);
     r2 ← gpsParse (fst r1) gsa_five; Ok (fst r2)).
Proof.
  apply (gpsParse_concat gps_prev (bytes "$" ++ gga_fix) gsa_five).
  - apply (bool_decide_unpack _). vm_compute. exact I.
  - apply Nat.leb_le. vm_compute. reflexivity.
Defined.

(** ** Rejections of [nmea_GGA], and short checksums *)

(** X18.  When [nmea_GGA] returns 0 the position, the hemispheres, the
    altitude, the dilution, the satellite count and the fix flag are as
    before.  The time field is as before on fewer than ten fields only: on
    ten fields or more it has been rewritten from field 1 before the
    sentence was turned down. *)
Theorem nmea_GGA_reject_frame gps s g' :
  nmea_GGA gps s = Ok (0, g') ->
  lat g' = lat gps /\ NS g' = NS gps /\ lon g' = lon gps /\ EW g' = EW gps
  /\ altitude g' = altitude gps /\ hdop g' = hdop gps
  /\ satelliteCount g' = satelliteCount gps /\ fix_ g' = fix_ gps
  /\ ((length (fields s) < 10)%nat -> lastMeasure g' = lastMeasure gps)
  /\ ((10 <= length (fields s))%nat ->
      lastMeasure g' = time_of (fields s !! 1%nat) (lastMeasure gps)).
Proof.
  intros H. apply nmea_GGA_reject in H as [[Hlt ->]|(f1 & Hge & E1 & ->)].
  - repeat split; try reflexivity. intros; lia.
  - rewrite E1. repeat split; try reflexivity. intros; lia.
Qed.

Lemma nmea_GGA_reject_frame_witness :
  exists g',
    nmea_GGA gps_prev gga_lat_zero = Ok (0, g')
    /\ lat g' = lat gps_prev /\ fix_ g' = fix_ gps_prev
    /\ lastMeasure g' = time_of (fields gga_lat_zero !! 1%nat) (lastMeasure gps_prev).
Proof.
  destruct (nmea_GGA gps_prev gga_lat_zero) as [[rc g']|f] eqn:E;
    [|exfalso; vm_compute in E; discriminate E].
  assert (rc = 0) as -> by (vm_compute in E; congruence).
  exists g'. split; [reflexivity|].
  destruct (nmea_GGA_reject_frame gps_prev gga_lat_zero g' E)
    as (H1 & _ & _ & _ & _ & _ & _ & H8 & _ & H10).
  split; [exact H1|]. split; [exact H8|].
  apply H10. apply Nat.leb_le. vm_compute. reflexivity.
Defined.

Lemma skip_0x_short base c1 c2 : skip_0x base [c1; c2] = [c1; c2].
Proof. destruct c1 as [[] [] [] [] [] [] [] []]; reflexivity. Qed.

Lemma skip_0x_one base c1 : skip_0x base [c1] = [c1].
Proof. destruct c1 as [[] [] [] [] [] [] [] []]; reflexivity. Qed.

(** A hexadecimal digit before a character that is none is read alone. *)
Lemma strtol_hex_one c1 c2 h :
  hexdigit c1 = Some h -> hexdigit c2 = None -> strtol [c1; c2] 16 = h.
Proof.
  intros H1 H2.
  destruct (hexdigit_plain c1 h [c2] H1) as (N1 & S1 & T1).
  destruct (hexdigit_plain c1 h [] H1) as (_ & _ & T0).
  pose proof (hexdigit_range _ _ H1).
  unfold hexdigit in H1, H2.
  unfold strtol. cbn [cstr]. rewrite N1.
  destruct (is_nul c2).
  - cbn [skip_space]. rewrite S1, T0, skip_0x_one.
    cbn [accum_digits]. rewrite H1.
    unfold clamp_long, LONG_MAX, LONG_MIN. lia.
  - cbn [skip_space]. rewrite S1, T1, skip_0x_short.
    cbn [accum_digits]. rewrite H1, H2.
    unfold clamp_long, LONG_MAX, LONG_MIN. lia.
Qed.

(** X19.  [getChecksum] does not ask for two hexadecimal digits after the
    star, only for two characters: when the first is a hexadecimal digit
    and the second is not, the sentence passes exactly when the XOR of its
    body is the value of that one digit. *)
Theorem getChecksum_one_digit body c1 c2 rest h :
  NUL ∉ body ++ "*"%char :: c1 :: c2 :: rest -> "*"%char ∉ body ->
  (2 <= length body)%nat ->
  hexdigit c1 = Some h -> hexdigit c2 = None ->
  (getChecksum (body ++ "*"%char :: c1 :: c2 :: rest) = 1
   <-> xor_bytes body = h).
Proof.
  intros Hnul Hstar Hlen H1 H2.
  rewrite (getChecksum_at_star _ _ Hnul Hstar).
  rewrite length_app. cbn [length].
  destruct (Nat.ltb_spec (length body + S (S (S (length rest)))) 5); [lia|].
  cbn [orb Nat.ltb Nat.leb].
  change (char_at (c1 :: c2 :: rest) 0) with c1.
  change (char_at (c1 :: c2 :: rest) 1) with c2.
  rewrite (strtol_hex_one _ _ _ H1 H2).
  destruct (Z.eqb_spec (xor_bytes body) h) as [E|E].
  - split; auto.
  - split; [discriminate|]. intros E'. destruct (E E').
Qed.

Lemma getChecksum_one_digit_witness :
  getChecksum (bytes "AB*3" ++ [CR; LF]) = 1 <-> xor_bytes (bytes "AB") = 3.
Proof.
  apply (getChecksum_one_digit (bytes "AB") "3"%char CR [LF] 3).
  - apply (bool_decide_unpack _). vm_compute. exact I.
  - apply (bool_decide_unpack _). vm_compute. exact I.
  - cbn. lia.
  - reflexivity.
  - reflexivity.
Defined.

(** * Allocation that may fail *)

(** ** The decoders *)

Lemma forallb_false {A} (f : A -> bool) l :
  forallb f l = false -> exists x, x ∈ l /\ f x = false.
Proof.
  induction l as [|y l IH]; cbn [forallb]; [discriminate|].
  destruct (f y) eqn:E; cbn [andb].
  - intros H. destruct (IH H) as (x & Hin & Hx). exists x. split; [right|]; auto.
  - intros _. exists y. split; [left|exact E].
Qed.



Lemma field_fault val i f : field val i = Fault f -> f = NullDereference.
Proof. unfold field. destruct (slot val i); [discriminate|]. congruence. Qed.

Lemma memcpy_fault dst t off n f :
  memcpy dst t off n = Fault f -> f = ReadPastAllocation.
Proof.
  unfold memcpy. destruct (off + n <=? length t + 1)%nat; [discriminate|].
  congruence.
Qed.

(** A slot whose allocation failed is [NULL]; the others are as without
    failure. *)
Lemma field_unchecked a val i :
  field (unchecked a val) i =
    if a (S i) then field val i else Fault NullDereference.
Proof.
  unfold field, slot, unchecked. rewrite list_lookup_imap.
  destruct (val !! i) as [v|]; cbn; destruct (a (S i)); reflexivity.
Qed.

Lemma unchecked_val_of a fs :
  (forall i, (i < length fs)%nat -> a (S i) = true) ->
  unchecked a (val_of fs) = val_of fs.
Proof.
  intros H. apply list_eq. intros i. unfold unchecked.
  rewrite list_lookup_imap.
  destruct (val_of fs !! i) as [[t|]|] eqn:E; cbn;
    [|destruct (a (S i)); reflexivity|reflexivity].
  destruct (decide (i < length fs)%nat) as [Hi|Hi];
    [rewrite (H i Hi); reflexivity|].
  exfalso. unfold val_of, slots in E.
  rewrite lookup_app_r in E by (rewrite length_map; lia).
  apply lookup_replicate in E as [E _]. discriminate E.
Qed.

(** When no allocation fails [nmea_GGA_alloc] is [nmea_GGA]. *)
Lemma nmea_GGA_alloc_eq a gps s :
  a 0%nat = true -> (forall i, (i < length (fields s))%nat -> a (S i) = true) ->
  nmea_GGA_alloc a gps s = nmea_GGA gps s.
Proof.
  intros H0 H. unfold nmea_GGA_alloc, nmea_GGA. rewrite H0. cbn [negb].
  rewrite tokenize_spec. cbv zeta. rewrite (unchecked_val_of _ _ H).
  reflexivity.
Qed.

Lemma nmea_GGA_alloc_no_buf a gps s :
  a 0%nat = false -> nmea_GGA_alloc a gps s = Ok (0, gps).
Proof. intros H0. unfold nmea_GGA_alloc. rewrite H0. reflexivity. Qed.

Lemma nmea_GGA_alloc_short a gps s :
  (length (fields s) < 10)%nat -> nmea_GGA_alloc a gps s = Ok (0, gps).
Proof.
  intros H. unfold nmea_GGA_alloc. destruct (a 0%nat); [|reflexivity].
  cbn [negb]. rewrite tokenize_spec. cbv zeta.
  destruct (Nat.ltb_spec (length (fields s)) 10); [reflexivity|lia].
Qed.

(** The two ways [nmea_GGA] has to fail. *)
Lemma nmea_GGA_alloc_fault a gps s f :
  nmea_GGA_alloc a gps s = Fault f ->
  f = ReadPastAllocation \/ f = NullDereference.
Proof.
  unfold nmea_GGA_alloc. destruct (a 0%nat); cbn [negb]; [|discriminate].
  destruct (tokenize s) as [val0 cnt]. cbv zeta.
  destruct (cnt <? 10)%nat; [discriminate|].
  unfold mbind, res_bind.
  repeat match goal with
         | |- Ok _ = Fault _ -> _ => discriminate
         | |- Fault _ = Fault _ -> _ => intros [= <-]; auto
         | |- context [field ?v ?i] =>
             let E := fresh "E" in
             destruct (field v i) eqn:E; [|apply field_fault in E; subst]
         | |- context [memcpy ?d ?t ?o ?n] =>
             let E := fresh "E" in
             destruct (memcpy d t o n) eqn:E; [|apply memcpy_fault in E; subst]
         | |- context [if ?b then _ else _] => destruct b
         end.
Qed.

(** It follows a null pointer only when the copy of a token failed. *)
Lemma nmea_GGA_alloc_null a gps s :
  nmea_GGA_alloc a gps s = Fault NullDereference ->
  exists i, (i < length (fields s))%nat /\ a (S i) = false.
Proof.
  intros Hf.
  destruct (a 0%nat) eqn:H0;
    [|rewrite (nmea_GGA_alloc_no_buf _ _ _ H0) in Hf; discriminate Hf].
  destruct (forallb (fun i => a (S i)) (seq 0 (length (fields s)))) eqn:Hall.
  - rewrite nmea_GGA_alloc_eq in Hf; [|exact H0|].
    + apply nmea_GGA_fault in Hf. discriminate Hf.
    + intros i Hi. rewrite forallb_forall in Hall. apply Hall.
      apply in_seq. lia.
  - apply forallb_false in Hall as (i & Hin & Hi).
    exists i. split; [|exact Hi]. apply elem_of_seq in Hin. lia.
Qed.

(** A failed copy of token 1 or of token 3 is always followed. *)
Lemma nmea_GGA_alloc_null_13 a gps s :
  a 0%nat = true -> (10 <= length (fields s))%nat ->
  a 2%nat = false \/ a 4%nat = false ->
  nmea_GGA_alloc a gps s = Fault NullDereference.
Proof.
  intros H0 Hge H. unfold nmea_GGA_alloc. rewrite H0. cbn [negb].
  rewrite tokenize_spec. cbv zeta.
  destruct (Nat.ltb_spec (length (fields s)) 10); [lia|].
  rewrite !field_unchecked.
  destruct (a 2%nat); [|reflexivity].
  destruct H as [H|H]; [discriminate H|]. rewrite H.
  rewrite !field_val_of.
  destruct (field_present (fields s) 1 ltac:(lia)) as [f1 E1].
  rewrite E1. reflexivity.
Qed.
(** ** The pass *)













(** X9.  [nmea_GGA] tests [buf] and stores the copies of the tokens
    untested.  It returns 0 and leaves the record as it is when the copy of
    the sentence fails, and on fewer than ten fields.  It fails in two ways
    only: by a read past the block of a token, and by the use of a null
    pointer, the latter only when the copy of a token failed, and always
    when that of token 1 or of token 3 did on a sentence of ten fields or
    more.  When every copy succeeds it is [nmea_GGA]: it then fails by a
    read past a token only, does so when field 3 starts with N or S and the
    latitude field has fewer than 7 characters, and returns, with 0 or 1,
    when the latitude field has at least 7 characters and the longitude
    field at least 9. *)
Theorem nmea_GGA_read_bounds a gps s :
  (a 0%nat = false -> nmea_GGA_alloc a gps s = Ok (0, gps))
  /\ ((length (fields s) < 10)%nat -> nmea_GGA_alloc a gps s = Ok (0, gps))
  /\ (forall f, nmea_GGA_alloc a gps s = Fault f ->
        f = ReadPastAllocation
        \/ (f = NullDereference
            /\ exists i, (i < length (fields s))%nat /\ a (S i) = false))
  /\ (a 0%nat = true -> (10 <= length (fields s))%nat ->
      a 2%nat = false \/ a 4%nat = false ->
      nmea_GGA_alloc a gps s = Fault NullDereference)
  /\ (a 0%nat = true ->
      (forall i, (i < length (fields s))%nat -> a (S i) = true) ->
      nmea_GGA_alloc a gps s = nmea_GGA gps s
      /\ (forall f, nmea_GGA_alloc a gps s = Fault f -> f = ReadPastAllocation)
      /\ (forall f2 f4,
            fields s !! 2%nat = Some f2 -> fields s !! 4%nat = Some f4 ->
            (7 <= length f2)%nat -> (9 <= length f4)%nat ->
            exists rc g',
              nmea_GGA_alloc a gps s = Ok (rc, g') /\ (rc = 0 \/ rc = 1))
      /\ (forall f2 f3,
            (10 <= length (fields s))%nat ->
            fields s !! 2%nat = Some f2 -> fields s !! 3%nat = Some f3 ->
            is_NS (char_at f3 0) = true -> (length f2 < 7)%nat ->
            nmea_GGA_alloc a gps s = Fault ReadPastAllocation)).
Proof.
  split; [apply nmea_GGA_alloc_no_buf|].
  split; [apply nmea_GGA_alloc_short|].
  split.
  { intros f Hf.
    destruct (nmea_GGA_alloc_fault _ _ _ _ Hf) as [->| ->]; [left; reflexivity|].
    right. split; [reflexivity|]. exact (nmea_GGA_alloc_null _ _ _ Hf). }
  split; [apply nmea_GGA_alloc_null_13|].
  intros H0 Hall. rewrite (nmea_GGA_alloc_eq _ _ _ H0 Hall).
  split; [reflexivity|].
  split; [apply nmea_GGA_fault|].
  split; [apply nmea_GGA_returns|apply nmea_GGA_over_read].
Qed.

Lemma nmea_GGA_read_bounds_witness :
  nmea_GGA_alloc all_succeed gps_prev gga_short_lat = Fault ReadPastAllocation
  /\ nmea_GGA_alloc fail_token_1 gps_prev gga_fix = Fault NullDereference
  /\ nmea_GGA_alloc all_succeed gps_prev (bytes "GPGGA,092725.00")
     = Ok (0, gps_prev)
  /\ exists rc g',
       nmea_GGA_alloc all_succeed gps_prev gga_fix = Ok (rc, g')
       /\ (rc = 0 \/ rc = 1).
Proof.
  destruct (nmea_GGA_read_bounds all_succeed gps_prev gga_short_lat)
    as (_ & _ & _ & _ & Hs).
  destruct (Hs eq_refl (fun _ _ => eq_refl)) as (_ & _ & _ & Hf).
  destruct (nmea_GGA_read_bounds fail_token_1 gps_prev gga_fix)
    as (_ & _ & _ & Hn & _).
  destruct (nmea_GGA_read_bounds all_succeed gps_prev (bytes "GPGGA,092725.00"))
    as (_ & Hshort & _).
  destruct (nmea_GGA_read_bounds all_succeed gps_prev gga_fix)
    as (_ & _ & _ & _ & Hg).
  destruct (Hg eq_refl (fun _ _ => eq_refl)) as (_ & _ & Hok & _).
  split.
  { apply (Hf (bytes "4807.0") (bytes "N")).
    - vm_compute. lia.
    - reflexivity.
    - reflexivity.
    - reflexivity.
    - vm_compute. lia. }
  split.
  { apply Hn; [reflexivity|vm_compute; lia|left; reflexivity]. }
  split; [apply Hshort; vm_compute; lia|].
  apply (Hok (bytes "4717.11364") (bytes "00833.91565")).
  - reflexivity.
  - reflexivity.
  - vm_compute. lia.
  - vm_compute. lia.
Defined.


